(** * Convergence-analysis scripts of the chemreac documentation

    A shallow embedding of the two example scripts
    [const_surf_conc.py] (the analytic reference solution and the driver
    [integrate_rd]) and [analytic_N_scaling.py] (the resolution sweep
    [main]), with the properties their specification states.

    Python floats are read as the real numbers they stand for, Python
    ints as [Z], numpy arrays as (nested) lists, exceptions as the left
    summand of a sum type.  The exceptional values of floating-point
    arithmetic (NaN, the infinities, a product that underflows to zero)
    are no real numbers: a statement about the value of a float
    expression is made where the expression stays inside the doubles,
    under the conditions of [PyFloat].  Everything the scripts import from another package (numpy's
    random generator, chemreac's grid generator, reaction-diffusion
    system, integrator and error measure, matplotlib) is a field of a
    record of collaborators: the scripts are proved against any
    implementation of it, and a small reference implementation serves
    wherever a concrete run is wanted. *)

From Stdlib Require Import Reals Lra Lia ZArith Bool Ascii String List.
From Stdlib Require Import DecimalString DecimalZ DecimalPos.
From Stdlib Require Import Sorted.
Import ListNotations.

Set Implicit Arguments.

(** ** The Python runtime: exceptions and results *)

Module Py.

Inductive exn : Type :=
| ValueError (msg : string)
| TypeError (msg : string)
| IndexError (msg : string)
| ZeroDivisionError
| Raised (origin : string) (msg : string).

(** A computation that either raises or returns. *)
Definition result (A : Type) : Type := (exn + A)%type.

Definition ret {A : Type} (a : A) : result A := inr a.
Definition raise {A : Type} (e : exn) : result A := inl e.

Definition bind {A B : Type} (m : result A) (k : A -> result B) : result B :=
  match m with
  | inl e => inl e
  | inr a => k a
  end.

Fixpoint mapM {A B : Type} (f : A -> result B) (l : list A) : result (list B) :=
  match l with
  | [] => ret []
  | a :: l' =>
      match f a with
      | inl e => inl e
      | inr b =>
          match mapM f l' with
          | inl e => inl e
          | inr bs => ret (b :: bs)
          end
      end
  end.

(** [range(n)]: empty when [n <= 0]. *)
Definition range (n : Z) : list Z := map Z.of_nat (seq 0 (Z.to_nat n)).

(** [l[:stop]] for a list and an int bound: a negative bound counts from
    the end. *)
Definition slice_to {A : Type} (stop : Z) (l : list A) : list A :=
  if (0 <=? stop)%Z then firstn (Z.to_nat stop) l
  else firstn (length l - Z.to_nat (- stop)) l.

End Py.

Declare Scope py_scope.
Delimit Scope py_scope with py.
Notation "x <- m ;; k" := (Py.bind m (fun x => k))
  (at level 61, m at next level, right associativity) : py_scope.
Notation "' pat <- m ;; k" := (Py.bind m (fun x => match x with pat => k end))
  (at level 61, pat pattern, m at next level, right associativity) : py_scope.

(** ** Python floats

    A double is read as a real number.  Two conditions on a real [r]
    say where the double nearest to it is an ordinary one: [positive]
    when that double is positive and finite ([r] lies above half the
    smallest subnormal, where rounding to nearest gives zero, and not
    above the largest double), [normal] when it is moreover a normal
    number, so that rounding moves it by a relative 2^-53 at most. *)

Module PyFloat.

Local Open Scope R_scope.

(** The largest double and the smallest positive normal one. *)
Definition largest : R := (2 - / 2 ^ 52) * 2 ^ 1023.
Definition smallest_normal : R := / 2 ^ 1022.

Definition positive (r : R) : Prop := / 2 ^ 1075 < r <= largest.

Definition normal (r : R) : Prop := smallest_normal <= r <= largest.

(** [int(r)]: truncation towards zero. *)
Definition trunc (r : R) : Z :=
  if Rle_dec 0 r then Int_part r else (- Int_part (- r))%Z.

(** The integer nearest to [r], a half going to the even neighbour. *)
Definition rint (r : R) : Z :=
  let below := Int_part r in
  if Rlt_dec (frac_part r) (1 / 2) then below
  else if Rlt_dec (1 / 2) (frac_part r) then (below + 1)%Z
  else if Z.even below then below else (below + 1)%Z.

(** [round(r, ndigits)] for a numpy float and [ndigits >= 0]:
    [rint(r * 10**ndigits) / 10**ndigits]. *)
Definition round (r : R) (ndigits : nat) : R :=
  IZR (rint (r * 10 ^ ndigits)) / 10 ^ ndigits.

End PyFloat.

(** *** Facts about floats *)

Section PyFloatFacts.

Local Open Scope R_scope.
Import PyFloat.

Lemma pow2_pos (n : nat) : 0 < 2 ^ n.
Proof. apply pow_lt. lra. Qed.

Lemma pow2_le (m n : nat) : (m <= n)%nat -> 2 ^ m <= 2 ^ n.
Proof. intros H. apply Rle_pow; [lra | exact H]. Qed.

Lemma inv_pow2_le (m n : nat) : (m <= n)%nat -> / 2 ^ n <= / 2 ^ m.
Proof.
  intros H. apply Rinv_le_contravar; [apply pow2_pos | apply pow2_le, H].
Qed.

Lemma largest_above (n : nat) : (n <= 1023)%nat -> 2 ^ n <= largest.
Proof.
  intros H. unfold largest.
  assert (H1 : / 2 ^ 52 <= / 2 ^ 0) by (apply inv_pow2_le; lia).
  simpl (2 ^ 0) in H1. rewrite Rinv_1 in H1.
  pose proof (pow2_le H) as H2. pose proof (pow2_pos 1023) as H3.
  pose proof (pow2_pos n) as H4.
  nra.
Qed.

Lemma normal_positive (r : R) : normal r -> positive r.
Proof.
  unfold normal, positive, smallest_normal. intros [H1 H2]. split; [| exact H2].
  assert (H : / 2 ^ 1075 < / 2 ^ 1022).
  { apply Rinv_lt_contravar.
    - apply Rmult_lt_0_compat; apply pow2_pos.
    - apply Rlt_pow; [lra | lia]. }
  lra.
Qed.

Lemma positive_gt_0 (r : R) : positive r -> 0 < r.
Proof.
  unfold positive. intros [H _].
  pose proof (Rinv_0_lt_compat _ (pow2_pos 1075)). lra.
Qed.

(** Every number between 2^-10 and 2^10 is well inside the normal doubles. *)
Lemma normal_moderate (r : R) : / 2 ^ 10 <= r <= 2 ^ 10 -> normal r.
Proof.
  intros [H1 H2]. split.
  - unfold smallest_normal.
    pose proof (@inv_pow2_le 10 1022 ltac:(lia)). lra.
  - pose proof (@largest_above 10 ltac:(lia)). lra.
Qed.

(** Twice a moderate number is no overflow. *)
Lemma moderate_doubles (r : R) : Rabs r <= 2 ^ 10 -> Rabs r <= largest / 2.
Proof.
  intros H. pose proof (@largest_above 11 ltac:(lia)) as Hl.
  simpl in H, Hl. lra.
Qed.

Lemma trunc_IZR (z : Z) : trunc (IZR z) = z.
Proof.
  unfold trunc. destruct (Rle_dec 0 (IZR z)) as [_ | _].
  - symmetry. apply Int_part_spec. lra.
  - rewrite <- opp_IZR.
    replace (Int_part (IZR (- z))) with (- z)%Z; [lia |].
    apply Int_part_spec. lra.
Qed.

Lemma rint_close (r : R) : Rabs (IZR (rint r) - r) <= 1 / 2.
Proof.
  unfold rint.
  pose proof (base_fp r) as [H0 H1].
  pose proof (Rplus_Int_part_frac_part r) as Hr.
  apply Rabs_le.
  destruct (Rlt_dec (frac_part r) (1 / 2)); [lra |].
  destruct (Rlt_dec (1 / 2) (frac_part r)); [rewrite plus_IZR; lra |].
  destruct (Z.even (Int_part r)); [lra | rewrite plus_IZR; lra].
Qed.

Lemma rint_IZR (z : Z) : rint (IZR z) = z.
Proof.
  unfold rint.
  assert (Hi : Int_part (IZR z) = z) by (symmetry; apply Int_part_spec; lra).
  assert (Hf : frac_part (IZR z) = 0) by (unfold frac_part; rewrite Hi; lra).
  rewrite Hf, Hi. destruct (Rlt_dec 0 (1 / 2)); [reflexivity | lra].
Qed.

(** Rounding to [n] decimals moves a number by at most half a unit of
    the last decimal kept, and leaves a whole multiple of that unit. *)
Lemma round_close (r : R) (n : nat) :
  Rabs (round r n - r) <= / 2 / 10 ^ n.
Proof.
  unfold round.
  assert (Hp : 0 < 10 ^ n) by (apply pow_lt; lra).
  pose proof (rint_close (r * 10 ^ n)) as H.
  replace (IZR (rint (r * 10 ^ n)) / 10 ^ n - r)
    with ((IZR (rint (r * 10 ^ n)) - r * 10 ^ n) / 10 ^ n)
    by (field; lra).
  unfold Rdiv at 1. rewrite Rabs_mult, (Rabs_pos_eq (/ 10 ^ n)).
  - unfold Rdiv. apply Rmult_le_compat_r.
    + left. apply Rinv_0_lt_compat, Hp.
    + lra.
  - left. apply Rinv_0_lt_compat, Hp.
Qed.

End PyFloatFacts.

(** ** [scipy.special.erfc] on the reals

    The complementary error function is one minus the Gaussian integral
    from 0 to z, normalised by the whole mass of the Gaussian on the
    positive half line, so that it falls from 1 at 0 towards 0.  (That
    mass is the number sqrt(pi)/2; its value plays no part below.) *)

Module Special.

Local Open Scope R_scope.

Definition gauss (u : R) : R := exp (- (u * u)).

(** Majorant of [gauss] whose primitive, the arc tangent, is bounded. *)
Definition lorentz (u : R) : R := / (1 + u * u).

Lemma gauss_pos (u : R) : 0 < gauss u.
Proof. apply exp_pos. Qed.

Lemma gauss_continuity : continuity gauss.
Proof.
  unfold gauss.
  apply (continuity_comp (fun u => - (u * u)) exp).
  - apply continuity_opp.
    apply continuity_mult; apply derivable_continuous, derivable_id.
  - apply derivable_continuous, derivable_exp.
Qed.

Lemma gauss_integrable (a b : R) : Riemann_integrable gauss a b.
Proof.
  destruct (Rle_dec a b) as [Hab | Hab].
  - apply continuity_implies_RiemannInt; [exact Hab |].
    intros; apply gauss_continuity.
  - apply RiemannInt_P1, continuity_implies_RiemannInt; [lra |].
    intros; apply gauss_continuity.
Qed.

(** The integral of [gauss] from [a] to [b] (signed). *)
Definition gauss_area (a b : R) : R := RiemannInt (gauss_integrable a b).

Lemma gauss_area_chasles (a b c : R) :
  gauss_area a b + gauss_area b c = gauss_area a c.
Proof. apply RiemannInt_P26. Qed.

Lemma gauss_area_refl (a : R) : gauss_area a a = 0.
Proof. apply RiemannInt_P9. Qed.

Lemma gauss_area_nonneg (a b : R) : a <= b -> 0 <= gauss_area a b.
Proof.
  intros Hab.
  rewrite <- (Rmult_0_l (b - a)), <- (RiemannInt_P15 (RiemannInt_P14 a b 0)).
  apply RiemannInt_P19; [exact Hab |].
  intros; unfold fct_cte; left; apply gauss_pos.
Qed.

Lemma lorentz_continuity : continuity lorentz.
Proof.
  intros u. unfold lorentz.
  apply continuity_pt_inv.
  - apply continuity_pt_plus.
    + apply continuity_pt_const. intros v w; reflexivity.
    + apply continuity_pt_mult; apply derivable_continuous_pt, derivable_pt_id.
  - nra.
Qed.

Lemma derive_atan_lorentz (u : R) :
  derive atan derivable_pt_atan u = lorentz u.
Proof.
  unfold derive, lorentz. rewrite derive_pt_atan. unfold Rsqr, Rdiv. ring.
Qed.

Definition atan_C1 : C1_fun.
Proof.
  refine (@mkC1 atan derivable_pt_atan _).
  intros u.
  apply (continuity_pt_locally_ext lorentz _ 1 u);
    [lra | | apply lorentz_continuity].
  intros v _. symmetry. apply derive_atan_lorentz.
Defined.

Lemma gauss_le_lorentz (u : R) : gauss u <= lorentz u.
Proof.
  unfold gauss, lorentz.
  assert (Hp : 0 < 1 + u * u) by nra.
  rewrite exp_Ropp.
  apply Rinv_le_contravar; [exact Hp |].
  destruct (Req_dec (u * u) 0) as [-> | Hne].
  - rewrite exp_0. lra.
  - left. apply exp_ineq1. exact Hne.
Qed.

Lemma gauss_area_bounded (z : R) : 0 <= z -> gauss_area 0 z <= PI / 2.
Proof.
  intros Hz.
  pose proof (RiemannInt_P33 atan_C1 (RiemannInt_P32 atan_C1 0 z) Hz) as Hint.
  simpl in Hint. rewrite atan_0, Rminus_0_r in Hint.
  apply Rle_trans with (atan z); [| left; apply atan_bound].
  rewrite <- Hint. unfold gauss_area.
  apply RiemannInt_P19; [exact Hz |].
  intros v _. rewrite derive_atan_lorentz. apply gauss_le_lorentz.
Qed.

(** The areas under [gauss] over the segments [0, z]. *)
Definition gauss_areas (y : R) : Prop :=
  exists z, 0 <= z /\ y = gauss_area 0 z.

Lemma gauss_areas_bound : bound gauss_areas.
Proof.
  exists (PI / 2). intros y (z & Hz & ->). apply gauss_area_bounded, Hz.
Qed.

Lemma gauss_areas_inhabited : exists y, gauss_areas y.
Proof. exists (gauss_area 0 0), 0. split; [lra | reflexivity]. Qed.

(** The mass of the Gaussian on the positive half line. *)
Definition gauss_mass : R :=
  proj1_sig (completeness gauss_areas gauss_areas_bound gauss_areas_inhabited).

Definition erf (z : R) : R := gauss_area 0 z / gauss_mass.

Definition erfc (z : R) : R := 1 - erf z.

Lemma gauss_mass_lub : is_lub gauss_areas gauss_mass.
Proof. unfold gauss_mass. apply proj2_sig. Qed.

Lemma gauss_area_unit : exp (- 1) <= gauss_area 0 1.
Proof.
  replace (exp (- 1)) with (exp (- 1) * (1 - 0)) by ring.
  rewrite <- (RiemannInt_P15 (RiemannInt_P14 0 1 (exp (- 1)))).
  apply RiemannInt_P19; [lra |].
  intros v Hv. unfold fct_cte, gauss.
  destruct (Rle_dec (- 1) (- (v * v))) as [H | H]; [| nra].
  destruct H as [H | H]; [left; apply exp_increasing, H | rewrite H; lra].
Qed.

Lemma gauss_mass_pos : 0 < gauss_mass.
Proof.
  apply Rlt_le_trans with (gauss_area 0 1).
  - apply Rlt_le_trans with (exp (- 1)); [apply exp_pos | apply gauss_area_unit].
  - apply (proj1 gauss_mass_lub). exists 1. split; [lra | reflexivity].
Qed.

Lemma erfc_0 : erfc 0 = 1.
Proof. unfold erfc, erf. rewrite gauss_area_refl. unfold Rdiv. ring. Qed.

Lemma erfc_decreasing (a b : R) : a <= b -> erfc b <= erfc a.
Proof.
  intros Hab. unfold erfc, erf.
  pose proof (gauss_area_chasles 0 a b) as Hc.
  pose proof (gauss_area_nonneg Hab) as Hn.
  pose proof gauss_mass_pos as Hm.
  assert (gauss_area 0 a / gauss_mass <= gauss_area 0 b / gauss_mass); [| lra].
  unfold Rdiv.
  apply Rmult_le_compat_r; [left; apply Rinv_0_lt_compat, Hm | lra].
Qed.

Lemma erfc_range (z : R) : 0 <= z -> 0 <= erfc z <= 1.
Proof.
  intros Hz. unfold erfc, erf.
  pose proof gauss_mass_pos as Hm.
  assert (H1 : gauss_area 0 z <= gauss_mass).
  { apply (proj1 gauss_mass_lub). exists z. split; [exact Hz | reflexivity]. }
  pose proof (gauss_area_nonneg Hz) as H0.
  assert (0 <= gauss_area 0 z / gauss_mass <= 1); [| lra].
  split.
  - apply Rmult_le_pos; [exact H0 | left; apply Rinv_0_lt_compat, Hm].
  - apply Rmult_le_reg_r with gauss_mass; [exact Hm |]. field_simplify; lra.
Qed.

End Special.

(** ** The part of numpy the scripts use, on lists of reals *)

Module Np.

Local Open Scope R_scope.

Definition vector : Type := list R.
Definition matrix : Type := list (list R).
Definition array3 : Type := list (list (list R)).

Definition sum (v : vector) : R := fold_right Rplus 0 v.

(** [np.average(v)]: the arithmetic mean. *)
Definition average (v : vector) : R := sum v / INR (length v).

(** [A[i][j]], [None] when an index is out of range. *)
Definition entry (A : matrix) (i j : nat) : option R :=
  match nth_error A i with
  | Some row => nth_error row j
  | None => None
  end.

(** [np.linspace(start, stop, num)], end point included: [num] evenly
    spaced samples, the last one set to [stop] when there are several.
    A negative [num] is refused. *)
Definition linspace (start stop : R) (num : Z) : Py.result vector :=
  if (num <? 0)%Z
  then Py.raise (Py.ValueError "Number of samples must be non-negative.")
  else
    let n := Z.to_nat num in
    let step := (stop - start) / INR (n - 1) in
    Py.ret (map (fun i => if (Nat.ltb 1 n && Nat.eqb i (n - 1))%bool then stop
                          else INR i * step + start)
                (seq 0 n)).

(** How numpy reads a float given as a slice bound.  The releases
    before 1.12 convert it to an int, truncating (and warn that this will
    end); 1.12 and the later ones refuse it. *)
Inductive float_bounds : Type := Truncated | Refused.

Definition slice_bound (numpy : float_bounds) (r : R) : Py.result Z :=
  match numpy with
  | Truncated => Py.ret (PyFloat.trunc r)
  | Refused =>
      Py.raise (Py.TypeError "slice indices must be integers or None or have an __index__ method")
  end.

(** [np.log(Ns)] for a list of Python ints.  Ints that fit 64 bits,
    signed or unsigned, are stored as numbers and their logarithms are
    taken; a list that holds an int outside both ranges becomes an array
    of objects, on which [np.log] raises.  (For an int that is not
    positive the logarithm is minus infinity or NaN, with a warning.) *)
Definition fits_64_bits (N : Z) : bool :=
  ((- 2 ^ 63 <=? N) && (N <? 2 ^ 64))%Z.

Definition log_ints (Ns : list Z) : Py.result vector :=
  if forallb fits_64_bits Ns then Py.ret (map (fun N => ln (IZR N)) Ns)
  else Py.raise (Py.TypeError "loop of ufunc does not support argument 0 of type int").

End Np.

(** ** [const_surf_conc.py]: the analytic reference *)

Module ConstSurfConc.

Local Open Scope R_scope.

(** [analytic(x, t, D, x0, xend, logx, c_s)] for one-dimensional [x] and
    [t].  The times are reshaped into a column, so every operation on
    them is row-wise and the division by [2*(D*t)**0.5] broadcasts the
    coordinates along each row.  [y**0.5] is the square root.  The
    arithmetic is that of the reals: it is the script's where every
    product [D*t] is a positive double ([PyFloat.positive]); for a
    product that is negative, zero or underflows to zero the script
    returns 0, [2*c_s] or NaN, which no real-valued function gives: a
    statement of the value it returns carries that condition. *)
Definition analytic (x t : Np.vector) (D x0 xend : R) (logx : bool) (c_s : R)
  : Np.matrix :=
  let x' := if logx then map exp x else x in
  let denom := map (fun ti => 2 * sqrt (D * ti)) t in
  let arg := map (fun d => map (fun xj => xj / d) x') denom in
  map (map (fun a => c_s * Special.erfc a)) arg.

(** The closed form at one physical position and one time. *)
Definition profile (D c_s x t : R) : R :=
  c_s * Special.erfc (x / (2 * sqrt (D * t))).

(** The physical position of a coordinate. *)
Definition position (logx : bool) (xj : R) : R := if logx then exp xj else xj.

End ConstSurfConc.

(** *** Properties of the analytic reference *)

Section AnalyticFacts.

Local Open Scope R_scope.
Import ConstSurfConc.

Variables (D x0 xend c_s : R) (logx : bool).

Lemma analytic_rows (x t : Np.vector) :
  analytic x t D x0 xend logx c_s
  = map (fun ti => map (fun xj => profile D c_s (position logx xj) ti) x) t.
Proof.
  unfold analytic, profile, position.
  rewrite !map_map. apply map_ext; intros ti.
  destruct logx; rewrite ?map_map; reflexivity.
Qed.

Lemma analytic_length (x t : Np.vector) :
  length (analytic x t D x0 xend logx c_s) = length t.
Proof. rewrite analytic_rows. apply length_map. Qed.

Lemma analytic_row_length (x t : Np.vector) :
  Forall (fun row => length row = length x) (analytic x t D x0 xend logx c_s).
Proof.
  rewrite analytic_rows. apply Forall_forall. intros row Hrow.
  apply in_map_iff in Hrow as (ti & <- & _). apply length_map.
Qed.

Lemma analytic_entry (x t : Np.vector) (i j : nat) (ti xj : R) :
  nth_error t i = Some ti ->
  nth_error x j = Some xj ->
  Np.entry (analytic x t D x0 xend logx c_s) i j
  = Some (profile D c_s (position logx xj) ti).
Proof.
  intros Hi Hj. unfold Np.entry. rewrite analytic_rows.
  rewrite nth_error_map, Hi. simpl.
  rewrite nth_error_map, Hj. reflexivity.
Qed.

End AnalyticFacts.

Section ProfileFacts.

Local Open Scope R_scope.
Import ConstSurfConc.

Lemma scaled_position_nonneg (D t x : R) :
  0 < D -> 0 < t -> 0 <= x -> 0 <= x / (2 * sqrt (D * t)).
Proof.
  intros HD Ht Hx.
  assert (Hs : 0 < sqrt (D * t)) by (apply sqrt_lt_R0; nra).
  apply Rmult_le_pos; [exact Hx |].
  left. apply Rinv_0_lt_compat. lra.
Qed.

Lemma scaled_position_monotone (D t x y : R) :
  0 < D -> 0 < t -> x <= y -> x / (2 * sqrt (D * t)) <= y / (2 * sqrt (D * t)).
Proof.
  intros HD Ht Hxy.
  assert (Hs : 0 < sqrt (D * t)) by (apply sqrt_lt_R0; nra).
  apply Rmult_le_compat_r; [| exact Hxy].
  left. apply Rinv_0_lt_compat. lra.
Qed.

Lemma position_nonneg (logx : bool) (x : R) : 0 <= x -> 0 <= position logx x.
Proof.
  intros Hx. destruct logx; simpl; [left; apply exp_pos | exact Hx].
Qed.

Lemma position_monotone (logx : bool) (x y : R) :
  x <= y -> position logx x <= position logx y.
Proof.
  intros Hxy. destruct logx; simpl; [| exact Hxy].
  destruct Hxy as [Hlt | ->]; [left; apply exp_increasing, Hlt | right; reflexivity].
Qed.

Lemma profile_range (D c_s x t : R) :
  0 < D -> 0 < t -> 0 <= c_s -> 0 <= x -> 0 <= profile D c_s x t <= c_s.
Proof.
  intros HD Ht Hc Hx. unfold profile.
  pose proof (Special.erfc_range (scaled_position_nonneg HD Ht Hx)) as [H0 H1].
  split; [apply Rmult_le_pos; assumption |].
  rewrite <- (Rmult_1_r c_s) at 2. apply Rmult_le_compat_l; assumption.
Qed.

Lemma profile_decreasing (D c_s x y t : R) :
  0 < D -> 0 < t -> 0 <= c_s -> x <= y -> profile D c_s y t <= profile D c_s x t.
Proof.
  intros HD Ht Hc Hxy. unfold profile.
  apply Rmult_le_compat_l; [exact Hc |].
  apply Special.erfc_decreasing, scaled_position_monotone; assumption.
Qed.

End ProfileFacts.

(** C1. For one-dimensional coordinates [x] and times [t], [analytic]
    returns a matrix indexed [time][space]: it has one row per time, every
    row has one entry per coordinate, and the entry at time [i] and space
    [j] is [c_s * erfc(x'_j / (2*sqrt(D*t_i)))], where [x'_j] is
    [exp(x_j)] when [logx] is set and [x_j] otherwise.  The formula is
    stated for a product [D*t_i] in the range of the normal doubles and
    a surface concentration whose double does not overflow: for a
    negative, zero or underflowing product the script divides by zero or
    takes the root of a negative number, and what it returns then
    (0, NaN) is not claimed here. *)
Theorem analytic_is_erfc_profile
  (x t : Np.vector) (D x0 xend c_s : R) (logx : bool) (i j : nat) (ti xj : R) :
  nth_error t i = Some ti ->
  nth_error x j = Some xj ->
  PyFloat.normal (D * ti) ->
  (Rabs c_s <= PyFloat.largest / 2)%R ->
  let A := ConstSurfConc.analytic x t D x0 xend logx c_s in
  length A = length t
  /\ Forall (fun row => length row = length x) A
  /\ Np.entry A i j
     = Some (c_s * Special.erfc ((if logx then exp xj else xj)
                                 / (2 * sqrt (D * ti))))%R.
Proof.
  intros Hi Hj _ _ A. subst A. repeat split.
  - apply analytic_length.
  - apply analytic_row_length.
  - apply (analytic_entry D x0 xend c_s logx x t i j Hi Hj).
Qed.

Lemma analytic_is_erfc_profile_witness :
  Np.entry (ConstSurfConc.analytic [0; 1]%R [1; 2]%R 1 0 1 true 3) 1 1
  = Some (3 * Special.erfc (exp 1 / (2 * sqrt (1 * 2))))%R.
Proof.
  apply (@analytic_is_erfc_profile [0; 1]%R [1; 2]%R 1 0 1 3 true 1 1 2 1)%R;
    first [reflexivity
          | apply normal_moderate; simpl; lra
          | apply moderate_doubles; rewrite Rabs_pos_eq; simpl; lra].
Defined.

(** C6 (as amended). For [D > 0], a time [t_i > 0] whose product
    [D*t_i] the doubles hold as a positive finite number, and a surface
    concentration [c_s >= 0], the value [analytic] returns at a coordinate
    [x_j >= 0] lies in the interval [0, c_s], and along the row of that
    time the value does not increase with the coordinate: at a coordinate
    [x_k >= x_j] it is at most the value at [x_j].  (Where the product
    underflows to zero the script divides by zero, and the value at
    [x = 0] is NaN.) *)
Theorem analytic_bounded_and_decreasing
  (x t : Np.vector) (D x0 xend c_s : R) (logx : bool)
  (i j k : nat) (ti xj xk : R) :
  (0 < D)%R -> (0 <= c_s)%R ->
  nth_error t i = Some ti -> (0 < ti)%R -> PyFloat.positive (D * ti) ->
  nth_error x j = Some xj -> nth_error x k = Some xk ->
  (0 <= xj)%R -> (xj <= xk)%R ->
  exists cj ck,
    Np.entry (ConstSurfConc.analytic x t D x0 xend logx c_s) i j = Some cj
    /\ Np.entry (ConstSurfConc.analytic x t D x0 xend logx c_s) i k = Some ck
    /\ (0 <= cj <= c_s)%R /\ (0 <= ck <= c_s)%R /\ (ck <= cj)%R.
Proof.
  intros HD Hc Hi Hti _ Hj Hk Hxj Hjk.
  exists (ConstSurfConc.profile D c_s (ConstSurfConc.position logx xj) ti),
         (ConstSurfConc.profile D c_s (ConstSurfConc.position logx xk) ti).
  assert (Hxk : (0 <= xk)%R) by lra.
  split; [apply analytic_entry; assumption |].
  split; [apply analytic_entry; assumption |].
  split; [apply profile_range; auto using position_nonneg |].
  split; [apply profile_range; auto using position_nonneg |].
  apply profile_decreasing; auto using position_monotone.
Qed.

Lemma analytic_bounded_and_decreasing_witness :
  exists cj ck,
    Np.entry (ConstSurfConc.analytic [0; 1]%R [2]%R 1 0 1 false 5) 0 0 = Some cj
    /\ Np.entry (ConstSurfConc.analytic [0; 1]%R [2]%R 1 0 1 false 5) 0 1 = Some ck
    /\ (0 <= cj <= 5)%R /\ (0 <= ck <= 5)%R /\ (ck <= cj)%R.
Proof.
  apply (@analytic_bounded_and_decreasing
           [0; 1]%R [2]%R 1 0 1 5 false 0 0 1 2 0 1)%R;
    first [reflexivity | lra
          | apply normal_positive, normal_moderate; simpl; lra].
Defined.

(** C6 as stated fails for a negative surface concentration: with
    [c_s = -1] the value at the surface [x = 0] is [-1], below 0. *)
Lemma analytic_negative_surface_concentration :
  Np.entry (ConstSurfConc.analytic [0]%R [1]%R 1 0 1 false (-1)) 0 0
  = Some (-1)%R
  /\ (-1 < 0)%R.
Proof.
  split; [| lra].
  rewrite (@analytic_entry 1 0 1 (-1) false [0]%R [1]%R 0 0 1 0)%R
    by reflexivity.
  unfold ConstSurfConc.profile, ConstSurfConc.position.
  replace (0 / (2 * sqrt (1 * 1)))%R with 0%R by (unfold Rdiv; ring).
  rewrite Special.erfc_0. f_equal. ring.
Qed.

(** ** Python text: [str.split], [int] and [str] on ints *)

Module PyText.

Local Open Scope string_scope.

Fixpoint all_chars (p : ascii -> bool) (s : string) : bool :=
  match s with
  | EmptyString => true
  | String c r => p c && all_chars p r
  end.

(** The characters [int] and [float] skip around a number, a string
    being a [str] of code points below 256: the ASCII white space (space,
    tab, line feed, vertical tab, form feed, carriage return) and, above
    127, the next-line and no-break-space characters.  The separators 28
    to 31, which [str.strip] would remove, are not among them. *)
Definition is_space (c : ascii) : bool :=
  let n := nat_of_ascii c in
  Nat.eqb n 32 || (Nat.leb 9 n && Nat.leb n 13)
  || Nat.eqb n 133 || Nat.eqb n 160.

Definition is_digit (c : ascii) : bool :=
  let n := nat_of_ascii c in Nat.leb 48 n && Nat.leb n 57.

Fixpoint lstrip (s : string) : string :=
  match s with
  | EmptyString => EmptyString
  | String c r => if is_space c then lstrip r else s
  end.

Fixpoint rstrip (s : string) : string :=
  match s with
  | EmptyString => EmptyString
  | String c r =>
      match rstrip r with
      | EmptyString => if is_space c then EmptyString else String c EmptyString
      | r' => String c r'
      end
  end.

(** The text without the white space around it. *)
Definition strip (s : string) : string := lstrip (rstrip s).

(** [s.split(sep)] for a one-character separator: every occurrence
    separates, empty fields are kept, the result is never empty. *)
Fixpoint split (sep : ascii) (s : string) : list string :=
  match s with
  | EmptyString => [EmptyString]
  | String c r =>
      if Ascii.eqb c sep then EmptyString :: split sep r
      else match split sep r with
           | field :: fields => String c field :: fields
           | [] => [String c EmptyString]
           end
  end.

(** [sep.join(fields)]. *)
Definition join (sep : ascii) (fields : list string) : string :=
  String.concat (String sep EmptyString) fields.

(** The digits of a literal in which single underscores may group
    digits: it starts and ends with a digit and no two underscores are
    adjacent.  Anything else is no literal. *)
Fixpoint ungroup (s : string) : option string :=
  match s with
  | EmptyString => None
  | String c r =>
      if is_digit c then
        match r with
        | EmptyString => Some s
        | String c' r' =>
            if Ascii.eqb c' "_" then option_map (String c) (ungroup r')
            else option_map (String c) (ungroup r)
        end
      else None
  end.

(** [int(s)] in base 10: the white space around the number is skipped,
    one sign is allowed, and digits must follow, which single
    underscores may group. *)
Definition int (s : string) : Py.result Z :=
  let body := strip s in
  let '(negative, literal) :=
    match body with
    | String "-" r => (true, r)
    | String "+" r => (false, r)
    | _ => (false, body)
    end in
  let refused :=
    Py.raise (Py.ValueError "invalid literal for int() with base 10") in
  match ungroup literal with
  | Some digits =>
      match NilEmpty.uint_of_string digits with
      | Some d => Py.ret (if negative then (- Z.of_uint d)%Z else Z.of_uint d)
      | None => refused
      end
  | None => refused
  end.

(** [str(n)] for an int. *)
Definition str (n : Z) : string := NilZero.string_of_int (Z.to_int n).

Definition not_comma (c : ascii) : bool := negb (Ascii.eqb c ",").

(** The characters of a printed int: digits and the minus sign. *)
Definition is_int_char (c : ascii) : bool := is_digit c || Ascii.eqb c "-".

End PyText.

Section PyTextFacts.

Import PyText.
Local Open Scope string_scope.

Lemma all_chars_weaken (p q : ascii -> bool) (s : string) :
  (forall c, p c = true -> q c = true) ->
  all_chars p s = true -> all_chars q s = true.
Proof.
  intros Hpq. induction s as [| c r IH]; simpl; [reflexivity |].
  intros H. apply andb_true_iff in H as [Hc Hr].
  rewrite (Hpq c Hc), (IH Hr). reflexivity.
Qed.

Lemma digits_of_uint (d : Decimal.uint) :
  all_chars is_digit (NilEmpty.string_of_uint d) = true.
Proof. induction d; simpl; try rewrite IHd; reflexivity. Qed.

Lemma digits_of_nonnil_uint (d : Decimal.uint) :
  d <> Decimal.Nil ->
  exists c r, NilEmpty.string_of_uint d = String c r /\ is_digit c = true.
Proof.
  intros Hd. pose proof (digits_of_uint d) as Hall.
  destruct (NilEmpty.string_of_uint d) as [| c r] eqn:E.
  - destruct d; simpl in E; try discriminate. contradiction.
  - simpl in Hall. apply andb_true_iff in Hall as [Hc _]. eauto.
Qed.

Lemma is_digit_not_space (c : ascii) : is_digit c = true -> is_space c = false.
Proof.
  unfold is_digit, is_space. intros H.
  apply andb_true_iff in H as [H1 H2].
  apply Nat.leb_le in H1, H2.
  repeat rewrite orb_false_iff. repeat split.
  - apply Nat.eqb_neq. lia.
  - apply andb_false_iff. right. apply Nat.leb_gt. lia.
  - apply Nat.eqb_neq. lia.
  - apply Nat.eqb_neq. lia.
Qed.

Lemma is_int_char_not_space (c : ascii) :
  is_int_char c = true -> is_space c = false.
Proof.
  unfold is_int_char. intros H. apply orb_true_iff in H as [H | H].
  - apply is_digit_not_space, H.
  - apply Ascii.eqb_eq in H. subst c. reflexivity.
Qed.

Lemma is_int_char_not_comma (c : ascii) :
  is_int_char c = true -> not_comma c = true.
Proof.
  unfold is_int_char, not_comma, is_digit. intros H.
  destruct (Ascii.eqb_spec c ",") as [-> | _]; [discriminate H | reflexivity].
Qed.

Lemma str_chars (n : Z) : all_chars is_int_char (str n) = true.
Proof.
  assert (Hu : forall d, all_chars is_int_char (NilZero.string_of_uint d) = true).
  { intros d. destruct d; try reflexivity;
      apply all_chars_weaken with (p := is_digit);
      try apply (digits_of_uint (_ d));
      intros c Hc; unfold is_int_char; rewrite Hc; reflexivity. }
  unfold str. destruct (Z.to_int n); simpl; [apply Hu | apply Hu].
Qed.

Lemma lstrip_no_space (s : string) :
  all_chars (fun c => negb (is_space c)) s = true -> lstrip s = s.
Proof.
  destruct s as [| c r]; simpl; [reflexivity |].
  intros H. apply andb_true_iff in H as [Hc _].
  apply negb_true_iff in Hc. rewrite Hc. reflexivity.
Qed.

Lemma rstrip_no_space (s : string) :
  all_chars (fun c => negb (is_space c)) s = true -> rstrip s = s.
Proof.
  induction s as [| c r IH]; simpl; [reflexivity |].
  intros H. apply andb_true_iff in H as [Hc Hr].
  apply negb_true_iff in Hc. rewrite (IH Hr), Hc.
  destruct r; reflexivity.
Qed.

Lemma strip_str (n : Z) : strip (str n) = str n.
Proof.
  assert (H : all_chars (fun c => negb (is_space c)) (str n) = true).
  { apply all_chars_weaken with (p := is_int_char); [| apply str_chars].
    intros c Hc. rewrite (is_int_char_not_space c Hc). reflexivity. }
  unfold strip. rewrite (rstrip_no_space _ H). apply lstrip_no_space, H.
Qed.

Lemma is_digit_not_underscore (c : ascii) :
  is_digit c = true -> Ascii.eqb c "_" = false.
Proof.
  intros H. destruct (Ascii.eqb_spec c "_") as [-> | _];
    [discriminate H | reflexivity].
Qed.

(** A run of digits is its own literal. *)
Lemma ungroup_digits (s : string) :
  s <> "" -> all_chars is_digit s = true -> ungroup s = Some s.
Proof.
  induction s as [| c r IH]; [contradiction |].
  intros _ H. simpl in H. apply andb_true_iff in H as [Hc Hr].
  cbn [ungroup]. rewrite Hc. destruct r as [| c' r']; [reflexivity |].
  assert (Hc' : is_digit c' = true).
  { simpl in Hr. apply andb_true_iff in Hr as [Hc' _]. exact Hc'. }
  rewrite (is_digit_not_underscore c' Hc').
  rewrite IH; [reflexivity | discriminate | exact Hr].
Qed.

Lemma unsigned_literal (c : ascii) (r : string) :
  is_digit c = true ->
  match String c r with
  | String "-" r' => (true, r')
  | String "+" r' => (false, r')
  | _ => (false, String c r)
  end = (false, String c r).
Proof.
  intros Hc.
  destruct c as [[|] [|] [|] [|] [|] [|] [|] [|]];
    vm_compute in Hc; try discriminate Hc; reflexivity.
Qed.

Lemma int_of_digits (d : Decimal.uint) :
  d <> Decimal.Nil ->
  int (NilEmpty.string_of_uint d) = Py.ret (Z.of_uint d).
Proof.
  intros Hd.
  destruct (digits_of_nonnil_uint Hd) as (c & r & E & Hc).
  assert (Hs : strip (NilEmpty.string_of_uint d) = NilEmpty.string_of_uint d).
  { assert (H : all_chars (fun c => negb (is_space c))
                  (NilEmpty.string_of_uint d) = true).
    { apply all_chars_weaken with (p := is_digit); [| apply digits_of_uint].
      intros a Ha. rewrite (is_digit_not_space a Ha). reflexivity. }
    unfold strip. rewrite (rstrip_no_space _ H). apply lstrip_no_space, H. }
  unfold int. rewrite Hs.
  pose proof (digits_of_uint d) as Hall.
  pose proof (NilEmpty.usu d) as Hbody.
  revert Hall Hbody. rewrite E. intros Hall Hbody.
  rewrite (@unsigned_literal c r Hc).
  rewrite ungroup_digits by (discriminate || exact Hall).
  rewrite Hbody. reflexivity.
Qed.

(** Printing an int and reading it back gives the int. *)
Lemma int_str (n : Z) : int (str n) = Py.ret n.
Proof.
  destruct n as [| p | p].
  - reflexivity.
  - unfold str. simpl Z.to_int. simpl NilZero.string_of_int.
    pose proof (DecimalPos.Unsigned.to_uint_nonnil p) as Hnil.
    replace (NilZero.string_of_uint (Pos.to_uint p))
      with (NilEmpty.string_of_uint (Pos.to_uint p))
      by (destruct (Pos.to_uint p); try reflexivity; contradiction).
    rewrite (int_of_digits Hnil). unfold Z.of_uint.
    rewrite DecimalPos.Unsigned.of_to. reflexivity.
  - pose proof (strip_str (Z.neg p)) as Hs.
    unfold int. rewrite Hs. unfold str.
    change (NilZero.string_of_int (Z.to_int (Z.neg p)))
      with (String "-" (NilZero.string_of_uint (Pos.to_uint p))).
    pose proof (DecimalPos.Unsigned.to_uint_nonnil p) as Hnil.
    cbv iota beta.
    replace (NilZero.string_of_uint (Pos.to_uint p))
      with (NilEmpty.string_of_uint (Pos.to_uint p))
      by (destruct (Pos.to_uint p); try reflexivity; contradiction).
    destruct (digits_of_nonnil_uint Hnil) as (c & r & E & Hc).
    rewrite ungroup_digits.
    + rewrite NilEmpty.usu. unfold Z.of_uint.
      rewrite DecimalPos.Unsigned.of_to. reflexivity.
    + rewrite E. discriminate.
    + apply digits_of_uint.
Qed.

Lemma split_no_sep (sep : ascii) (s : string) :
  all_chars (fun c => negb (Ascii.eqb c sep)) s = true -> split sep s = [s].
Proof.
  induction s as [| c r IH]; simpl; [reflexivity |].
  intros H. apply andb_true_iff in H as [Hc Hr].
  apply negb_true_iff in Hc. rewrite Hc, (IH Hr). reflexivity.
Qed.

Lemma split_field_then_sep (sep : ascii) (s rest : string) :
  all_chars (fun c => negb (Ascii.eqb c sep)) s = true ->
  split sep (s ++ String sep rest) = s :: split sep rest.
Proof.
  induction s as [| c r IH]; simpl.
  - intros _. rewrite Ascii.eqb_refl. reflexivity.
  - intros H. apply andb_true_iff in H as [Hc Hr].
    apply negb_true_iff in Hc. rewrite Hc, (IH Hr). reflexivity.
Qed.

(** Splitting a joined list of separator-free fields gives the fields. *)
Lemma split_join (sep : ascii) (fields : list string) :
  fields <> [] ->
  Forall (fun s => all_chars (fun c => negb (Ascii.eqb c sep)) s = true) fields ->
  split sep (join sep fields) = fields.
Proof.
  intros Hne Hall. induction Hall as [| s rest Hs Hrest IH]; [contradiction |].
  unfold join in *. destruct rest as [| s' rest'].
  - simpl. apply split_no_sep, Hs.
  - change (String.concat (String sep "") (s :: s' :: rest'))
      with (s ++ String sep (String.concat (String sep "") (s' :: rest'))).
    rewrite (@split_field_then_sep sep s _ Hs), IH; [reflexivity | discriminate].
Qed.

Lemma mapM_int_str (l : list Z) : Py.mapM int (map str l) = Py.ret l.
Proof.
  induction l as [| n l IH]; simpl; [reflexivity |].
  rewrite int_str, IH. reflexivity.
Qed.

End PyTextFacts.

(** ** Effects: a state threaded through computations that may raise *)

Module Eff.

Section WithState.

Variable S : Type.

(** A raised exception keeps the state reached so far. *)
Definition io (A : Type) : Type := S -> Py.result A * S.

Definition ret {A : Type} (a : A) : io A := fun s => (inr a, s).

Definition bind {A B : Type} (m : io A) (k : A -> io B) : io B :=
  fun s =>
    match m s with
    | (inl e, s') => (inl e, s')
    | (inr a, s') => k a s'
    end.

(** A pure computation run inside a stateful one. *)
Definition lift {A : Type} (r : Py.result A) : io A := fun s => (r, s).

Definition when (b : bool) (m : io unit) : io unit :=
  if b then m else ret tt.

(** A [for] loop over a list. *)
Fixpoint for_each {A : Type} (body : A -> io unit) (l : list A) : io unit :=
  match l with
  | [] => ret tt
  | a :: l' => bind (body a) (fun _ => for_each body l')
  end.

(** A list comprehension whose element expression has effects. *)
Fixpoint collect {A B : Type} (f : A -> io B) (l : list A) : io (list B) :=
  match l with
  | [] => ret []
  | a :: l' => bind (f a) (fun b => bind (collect f l') (fun bs => ret (b :: bs)))
  end.

End WithState.

(** [enumerate(l)]. *)
Definition enumerate {A : Type} (l : list A) : list (Z * A) :=
  combine (map Z.of_nat (seq 0 (length l))) l.

End Eff.

Declare Scope io_scope.
Delimit Scope io_scope with io.
Notation "x <- m ;; k" := (Eff.bind m (fun x => k))
  (at level 61, m at next level, right associativity) : io_scope.
Notation "' pat <- m ;; k" := (Eff.bind m (fun x => match x with pat => k end))
  (at level 61, pat pattern, m at next level, right associativity) : io_scope.
Notation "m ;;; k" := (Eff.bind m (fun _ => k))
  (at level 61, right associativity) : io_scope.

(** ** More of numpy: reshaping and slicing of three-dimensional arrays *)

Module NpArray.

Local Open Scope R_scope.
Import Np.

Definition index_error {A : Type} : Py.result A :=
  Py.raise (Py.IndexError "index is out of bounds").

Definition item {A : Type} (l : list A) (i : nat) : Py.result A :=
  match nth_error l i with
  | Some a => Py.ret a
  | None => index_error
  end.

(** [A[:, :, s]]. *)
Definition species (A : array3) (s : nat) : Py.result matrix :=
  Py.mapM (Py.mapM (fun cell => item cell s)) A.

(** [A[i, :, s]]. *)
Definition row_species (A : array3) (i s : nat) : Py.result vector :=
  match nth_error A i with
  | Some row => Py.mapM (fun cell => item cell s) row
  | None => index_error
  end.

(** [m.reshape(nt, N, 1)] for a matrix [m] of [nt >= 0] rows of [L]
    entries.  One dimension may be given as -1 and is then computed,
    which needs a non-empty array; otherwise the sizes must agree. *)
Definition reshape_column (nt N : Z) (L : nat) (m : matrix) : Py.result array3 :=
  if (((N =? -1) && (0 <? nt))
      || ((0 <=? N) && ((nt =? 0) || (N =? Z.of_nat L))))%Z%bool
  then Py.ret (map (map (fun v => [v])) m)
  else Py.raise (Py.ValueError "cannot reshape array into shape (nt, N, 1)").

(** [np.zeros_like(m)]. *)
Definition zeros_like (m : matrix) : matrix := map (map (fun _ => 0)) m.

(** [m[0, :] = v], in place. *)
Definition fill_first_row (v : R) (m : matrix) : Py.result matrix :=
  match m with
  | [] => index_error
  | row :: rest => Py.ret (map (fun _ => v) row :: rest)
  end.

(** [np.concatenate((a, b), axis=1)] for matrices with as many rows. *)
Definition concatenate_columns (a b : matrix) : matrix :=
  map (fun rows => fst rows ++ snd rows) (combine a b).

End NpArray.

(** ** The chemreac package, as far as [const_surf_conc.py] uses it *)

Module Chemreac.

(** The arguments [integrate_rd] passes to the [ReactionDiffusion]
    constructor. *)
Record rd_args : Type := {
  n : Z;
  stoich_reac : list (list Z);
  stoich_prod : list (list Z);
  k : list R;
  N : Z;
  D : list R;
  x : Np.vector;
  logy : bool;
  logt : bool;
  logx : bool;
  nstencil : Z;
  lrefl : bool;
  rrefl : bool;
  modulated_rxns : list Z;
  modulation : list (list Z);
  units : string -> R;
  faraday : R;
  vacuum_permittivity : R
}.

(** What [chemreac.integrate.run] hands back, as far as it is read. *)
Record integration (info : Type) : Type := {
  Cout : Np.array3;
  yout : Np.array3;
  info_of : info
}.

(** What the script draws when [plot] is set. *)
Record figure_data : Type := {
  fig_tout : Np.vector;
  fig_Cout : Np.array3;
  fig_Cref : Np.array3;
  fig_spat_ave_rmsd_over_atol : Np.vector;
  fig_tot_ave_rmsd_over_atol : R;
  fig_savefig : string
}.

(** The collaborators of [integrate_rd]: numpy's global random generator,
    the grid generator, the reaction-diffusion system, the integrator, the
    error measure and the plotting code. *)
Record collaborators : Type := {
  rng : Type;
  seed_state : Z -> Py.result rng;
  generate_grid : R -> R -> Z -> bool -> bool -> Eff.io rng Np.vector;
  system : Type;
  ReactionDiffusion : rd_args -> Py.result system;
  xcenters : system -> Np.vector;
  info : Type;
  run : system -> Np.matrix -> Np.vector -> R -> R -> bool -> string
        -> Py.result (integration info);
  spat_ave_rmsd_vs_time : Np.matrix -> Np.matrix -> Py.result Np.vector;
  draw : system -> figure_data -> Py.result unit
}.

(** [np.random.seed(s)]: the generator's state is replaced by one that
    depends on [s] alone; a refused seed leaves it as it was. *)
Definition np_random_seed (co : collaborators) (s : Z) : Eff.io (rng co) unit :=
  fun g =>
    match seed_state co s with
    | inl e => (inl e, g)
    | inr g' => (inr tt, g')
    end.

End Chemreac.

(** ** [const_surf_conc.py]: the driver [integrate_rd] *)

Module IntegrateRd.

Local Open Scope R_scope.
Import Chemreac.

(** The keyword arguments of [integrate_rd]. *)
Record args : Type := {
  D : R;
  t0 : R;
  tend : R;
  x0 : R;
  xend : R;
  N : Z;
  nt : Z;
  logt : bool;
  logy : bool;
  logx : bool;
  random : bool;
  k : R;
  nstencil : Z;
  linterpol : bool;
  rinterpol : bool;
  num_jacobian : bool;
  method : string;
  plot : bool;
  atol : R;
  rtol : R;
  factor : R;
  random_seed : Z;
  savefig : string;
  verbose : bool;
  scaling : R
}.

(** Their default values. *)
Definition defaults : args := {|
  D := 2 / 1000;
  t0 := 1;
  tend := 13;
  x0 := / 10 ^ 10;
  xend := 1;
  N := 64;
  nt := 42;
  logt := false;
  logy := false;
  logx := false;
  random := false;
  k := 1;
  nstencil := 3;
  linterpol := false;
  rinterpol := false;
  num_jacobian := false;
  method := "bdf";
  plot := false;
  atol := / 10 ^ 6;
  rtol := / 10 ^ 6;
  factor := 10 ^ 5;
  random_seed := 42;
  savefig := "None";
  verbose := false;
  scaling := 1
|}.

(** The values [integrate_rd] has built when it calls the integrator. *)
Record setup (co : collaborators) : Type := {
  tout : Np.vector;
  grid : Np.vector;
  modulation_vector : list Z;
  system_args : rd_args;
  rd : system co;
  Cref : Np.array3;
  source : Np.matrix;
  y0 : Np.matrix
}.

(** The values it holds when it returns. *)
Record frame (co : collaborators) : Type := {
  before : setup co;
  integr : integration (info co);
  spat_ave_rmsd_over_atol : Np.vector;
  tot_ave_rmsd_over_atol : R
}.

Section Driver.

Variable co : collaborators.

(** Computations on numpy's global random generator. *)
Definition io (A : Type) : Type := Eff.io (rng co) A.

(** [if t0 == 0.0: raise ValueError(...)]. *)
Definition check_t0 (a : args) : Py.result unit :=
  if Req_dec_T (t0 a) 0
  then Py.raise (Py.ValueError "t0==0 => Dirac delta function C0 profile.")
  else Py.ret tt.

(** [if random_seed: np.random.seed(random_seed)]. *)
Definition seeding (a : args) : io unit :=
  Eff.when (negb (random_seed a =? 0)%Z) (np_random_seed co (random_seed a)).

(** [units = defaultdict(lambda: 1); units['amount'] = 1.0/scaling]. *)
Definition make_units (a : args) : Py.result (string -> R) :=
  if Req_dec_T (scaling a) 0 then Py.raise Py.ZeroDivisionError
  else Py.ret (fun key => if String.eqb key "amount" then 1 / scaling a else 1).

(** [[1 if (i == 0) else 0 for i in range(N)]]. *)
Definition make_modulation (a : args) : list Z :=
  map (fun i => if (i =? 0)%Z then 1%Z else 0%Z) (Py.range (N a)).

Definition make_rd_args (a : args) (units : string -> R) (x : Np.vector)
  : rd_args := {|
  Chemreac.n := 2;
  Chemreac.stoich_reac := [[0]; [1]]%Z;
  Chemreac.stoich_prod := [[1]; [0]]%Z;
  Chemreac.k := [k a; factor a * k a];
  Chemreac.N := N a;
  Chemreac.D := [0; D a];
  Chemreac.x := x;
  Chemreac.logy := logy a;
  Chemreac.logt := logt a;
  Chemreac.logx := logx a;
  Chemreac.nstencil := nstencil a;
  Chemreac.lrefl := negb (linterpol a);
  Chemreac.rrefl := negb (rinterpol a);
  Chemreac.modulated_rxns := [0; 1]%Z;
  Chemreac.modulation := [make_modulation a; make_modulation a];
  Chemreac.units := units;
  Chemreac.faraday := 1;
  Chemreac.vacuum_permittivity := 1
|}.

(** From the time grid to the initial condition: everything between the
    seeding and the call of the integrator. *)
Definition after_seeding (a : args) : io (setup co) :=
  (tout <- Eff.lift (Np.linspace (t0 a) (tend a) (nt a)) ;;
   units <- Eff.lift (make_units a) ;;
   x <- generate_grid co (x0 a) (xend a) (N a) (logx a) (random a) ;;
   rd <- Eff.lift (ReactionDiffusion co (make_rd_args a units x)) ;;
   Cref <- Eff.lift
     (NpArray.reshape_column (nt a) (N a) (length (xcenters co rd))
        (ConstSurfConc.analytic (xcenters co rd) tout
           (D a) (x0 a) (xend a) (logx a) 1)) ;;
   Cref0 <- Eff.lift (NpArray.item Cref 0) ;;
   source <- Eff.lift
     (NpArray.fill_first_row (factor a) (NpArray.zeros_like Cref0)) ;;
   Eff.ret {| tout := tout;
              grid := x;
              modulation_vector := make_modulation a;
              system_args := make_rd_args a units x;
              rd := rd;
              Cref := Cref;
              source := source;
              y0 := NpArray.concatenate_columns source Cref0 |})%io.

Definition prepare (a : args) : io (setup co) :=
  (Eff.lift (check_t0 a) ;;;
   seeding a ;;;
   after_seeding a)%io.

(** The integration and the error measures. The two [print] calls only
    read [Cout[0, :, 1]] and [yout[0, :, 1]]. *)
Definition integrate_rd_frame (a : args) : io (frame co) :=
  (s <- prepare a ;;
   integr <- Eff.lift
     (run co (rd s) (y0 s) (tout s) (atol a) (rtol a)
        (negb (num_jacobian a)) (method a)) ;;
   Eff.lift (NpArray.row_species (Cout integr) 0 1) ;;;
   Eff.lift (NpArray.row_species (yout integr) 0 1) ;;;
   Cout1 <- Eff.lift (NpArray.species (Cout integr) 1) ;;
   Cref0 <- Eff.lift (NpArray.species (Cref s) 0) ;;
   rmsd <- Eff.lift (spat_ave_rmsd_vs_time co Cout1 Cref0) ;;
   let spat_ave_rmsd_over_atol := map (fun e => e / atol a) rmsd in
   let tot_ave_rmsd_over_atol := Np.average spat_ave_rmsd_over_atol in
   Eff.when (plot a)
     (Eff.lift (draw co (rd s)
        {| fig_tout := tout s;
           fig_Cout := Cout integr;
           fig_Cref := Cref s;
           fig_spat_ave_rmsd_over_atol := spat_ave_rmsd_over_atol;
           fig_tot_ave_rmsd_over_atol := tot_ave_rmsd_over_atol;
           fig_savefig := savefig a |})) ;;;
   Eff.ret {| before := s;
              integr := integr;
              spat_ave_rmsd_over_atol := spat_ave_rmsd_over_atol;
              tot_ave_rmsd_over_atol := tot_ave_rmsd_over_atol |})%io.

(** [return tout, Cout, info, rd, tot_ave_rmsd_over_atol]. *)
Definition integrate_rd (a : args)
  : io (Np.vector * Np.array3 * info co * system co * R) :=
  (f <- integrate_rd_frame a ;;
   Eff.ret (tout (before f), Cout (integr f), info_of (integr f),
            rd (before f), tot_ave_rmsd_over_atol f))%io.

End Driver.

End IntegrateRd.

(** *** Running effectful computations step by step *)

Section EffFacts.

Variable S : Type.

Lemma bind_ok (A B : Type) (m : Eff.io S A) (k : A -> Eff.io S B)
      (s s1 : S) (a : A) :
  m s = (inr a, s1) -> Eff.bind m k s = k a s1.
Proof. intros H. unfold Eff.bind. rewrite H. reflexivity. Qed.

Lemma bind_raises (A B : Type) (m : Eff.io S A) (k : A -> Eff.io S B)
      (s s1 : S) (e : Py.exn) :
  m s = (inl e, s1) -> Eff.bind m k s = (inl e, s1).
Proof. intros H. unfold Eff.bind. rewrite H. reflexivity. Qed.

(** A sequence that returns has run both of its parts. *)
Lemma bind_inv (A B : Type) (m : Eff.io S A) (k : A -> Eff.io S B)
      (s s2 : S) (b : B) :
  Eff.bind m k s = (inr b, s2) ->
  exists a s1, m s = (inr a, s1) /\ k a s1 = (inr b, s2).
Proof.
  unfold Eff.bind. destruct (m s) as [[e | a] s1]; intros H.
  - discriminate H.
  - exists a, s1. split; [reflexivity | exact H].
Qed.

Lemma lift_inv (A : Type) (r : Py.result A) (s s1 : S) (a : A) :
  Eff.lift r s = (inr a, s1) -> r = inr a /\ s1 = s.
Proof. unfold Eff.lift. intros H. inversion H. split; reflexivity. Qed.

Lemma ret_inv (A : Type) (a b : A) (s s1 : S) :
  Eff.ret a s = (inr b, s1) -> b = a /\ s1 = s.
Proof. unfold Eff.ret. intros H. inversion H. split; reflexivity. Qed.

(** A loop stops at the first iteration that raises. *)
Lemma for_each_stops (A : Type) (body : A -> Eff.io S unit)
      (done : list A) (a : A) (rest : list A) (s s1 s2 : S) (e : Py.exn) :
  Eff.for_each body done s = (inr tt, s1) ->
  body a s1 = (inl e, s2) ->
  Eff.for_each body (done ++ a :: rest) s = (inl e, s2).
Proof.
  revert s. induction done as [| d done IH]; simpl; intros s Hdone Ha.
  - apply ret_inv in Hdone as [_ ->]. apply bind_raises, Ha.
  - apply bind_inv in Hdone as (u & s' & Hd & Hrest).
    erewrite bind_ok by exact Hd. apply IH; assumption.
Qed.

Lemma for_each_app (A : Type) (body : A -> Eff.io S unit)
      (l1 l2 : list A) (s s1 : S) :
  Eff.for_each body l1 s = (inr tt, s1) ->
  Eff.for_each body (l1 ++ l2) s = Eff.for_each body l2 s1.
Proof.
  revert s. induction l1 as [| d l1 IH]; simpl; intros s H.
  - apply ret_inv in H as [_ ->]. reflexivity.
  - apply bind_inv in H as (u & s' & Hd & Hrest).
    erewrite bind_ok by exact Hd. apply IH, Hrest.
Qed.

End EffFacts.

(** Inverts a hypothesis saying that a sequence of steps returned. *)
Ltac eff_inv H :=
  let a := fresh "v" in
  let s := fresh "st" in
  let H1 := fresh "Hstep" in
  apply bind_inv in H as (a & s & H1 & H);
  try (apply lift_inv in H1 as [H1 ->]).

(** The same, naming the value of the first step and its equation. *)
Tactic Notation "eff_step" hyp(H) "as" ident(v) ident(Hv) :=
  let s := fresh "st" in
  apply bind_inv in H as (v & s & Hv & H);
  try (apply lift_inv in Hv as [Hv ->]).

(** ** A reference implementation of the collaborators

    The generator's state is a counter.  The grid has evenly spaced edges,
    whose inner ones are shifted by a quarter of a cell when the
    perturbation is asked for and the state is odd; drawing advances the
    state.  The system remembers its arguments, its cell centres are the
    midpoints of the edges.  The integrator keeps the initial state at
    every output time, and the error measure is the root of the mean
    squared deviation over the cells. *)

Module Reference.

Local Open Scope R_scope.
Import Chemreac.

Definition seed_state (s : Z) : Py.result Z :=
  if ((0 <=? s) && (s <? 2 ^ 32))%Z%bool then Py.ret s
  else Py.raise (Py.ValueError "Seed must be between 0 and 2**32 - 1").

Definition jitter (g : Z) : R := IZR (g mod 2) / 4.

Definition edges (lo hi : R) (cells : nat) (shift : R) : Np.vector :=
  map (fun i =>
         lo + (hi - lo)
              * ((INR i + (if (Nat.ltb 0 i && Nat.ltb i cells)%bool
                           then shift else 0)) / INR cells))
      (seq 0 (S cells)).

Definition generate_grid (x0 xend : R) (N : Z) (logx random : bool)
  : Eff.io Z Np.vector :=
  fun g =>
    if (N <=? 0)%Z
    then (Py.raise (Py.ValueError "N must be positive"), g)
    else
      let lo := if logx then ln x0 else x0 in
      let hi := if logx then ln xend else xend in
      if random
      then (Py.ret (edges lo hi (Z.to_nat N) (jitter g)), (g + 1)%Z)
      else (Py.ret (edges lo hi (Z.to_nat N) 0), g).

Definition midpoints (x : Np.vector) : Np.vector :=
  map (fun p => (fst p + snd p) / 2) (combine x (tl x)).

Definition run (sys : rd_args) (y0 : Np.matrix) (tout : Np.vector)
           (atol rtol : R) (with_jacobian : bool) (method : string)
  : Py.result (integration unit) :=
  Py.ret {| Cout := map (fun _ => y0) tout;
            yout := map (fun _ => y0) tout;
            info_of := tt |}.

Definition rmsd (a b : Np.vector) : R :=
  sqrt (Np.sum (map (fun p => (fst p - snd p) * (fst p - snd p)) (combine a b))
        / INR (length a)).

Definition spat_ave_rmsd_vs_time (A B : Np.matrix) : Py.result Np.vector :=
  if Nat.eqb (length A) (length B)
  then Py.ret (map (fun p => rmsd (fst p) (snd p)) (combine A B))
  else Py.raise (Py.ValueError "shapes differ").

Definition collaborators : Chemreac.collaborators := {|
  rng := Z;
  Chemreac.seed_state := seed_state;
  Chemreac.generate_grid := generate_grid;
  system := rd_args;
  ReactionDiffusion := fun a => Py.ret a;
  xcenters := fun sys => midpoints (x sys);
  info := unit;
  Chemreac.run := run;
  Chemreac.spat_ave_rmsd_vs_time := spat_ave_rmsd_vs_time;
  draw := fun _ _ => Py.ret tt
|}.

(** The default arguments with a few of them replaced. *)
Definition example (t0 : R) (N nt : Z) (random : bool) (random_seed : Z)
  : IntegrateRd.args := {|
  IntegrateRd.D := 1;
  IntegrateRd.t0 := t0;
  IntegrateRd.tend := 13;
  IntegrateRd.x0 := 0;
  IntegrateRd.xend := 1;
  IntegrateRd.N := N;
  IntegrateRd.nt := nt;
  IntegrateRd.logt := false;
  IntegrateRd.logy := false;
  IntegrateRd.logx := false;
  IntegrateRd.random := random;
  IntegrateRd.k := 1;
  IntegrateRd.nstencil := 3;
  IntegrateRd.linterpol := false;
  IntegrateRd.rinterpol := false;
  IntegrateRd.num_jacobian := false;
  IntegrateRd.method := "bdf";
  IntegrateRd.plot := false;
  IntegrateRd.atol := / 10 ^ 6;
  IntegrateRd.rtol := / 10 ^ 6;
  IntegrateRd.factor := 10 ^ 5;
  IntegrateRd.random_seed := random_seed;
  IntegrateRd.savefig := "None";
  IntegrateRd.verbose := false;
  IntegrateRd.scaling := 1
|}.

End Reference.

(** *** How [integrate_rd] runs *)

Section DriverFacts.

Import Chemreac IntegrateRd.
Local Open Scope R_scope.

Variable co : collaborators.

Lemma check_t0_zero (a : args) :
  t0 a = 0 ->
  check_t0 a
  = Py.raise (Py.ValueError "t0==0 => Dirac delta function C0 profile.").
Proof.
  intros H. unfold check_t0.
  destruct (Req_dec_T (t0 a) 0); [reflexivity | contradiction].
Qed.

Lemma check_t0_nonzero (a : args) : t0 a <> 0 -> check_t0 a = Py.ret tt.
Proof.
  intros H. unfold check_t0.
  destruct (Req_dec_T (t0 a) 0); [contradiction | reflexivity].
Qed.

Lemma make_units_nonzero (a : args) :
  scaling a <> 0 ->
  make_units a
  = Py.ret (fun key => if String.eqb key "amount" then 1 / scaling a else 1).
Proof.
  intros H. unfold make_units.
  destruct (Req_dec_T (scaling a) 0); [contradiction | reflexivity].
Qed.

Lemma prepare_zero_t0 (a : args) (g : rng co) :
  t0 a = 0 ->
  prepare co a g
  = (inl (Py.ValueError "t0==0 => Dirac delta function C0 profile."), g).
Proof.
  intros H. unfold prepare. apply bind_raises.
  unfold Eff.lift. rewrite (check_t0_zero a H). reflexivity.
Qed.

Lemma prepare_nonzero_t0 (a : args) (g : rng co) :
  t0 a <> 0 ->
  prepare co a g
  = Eff.bind (seeding co a) (fun _ => after_seeding co a) g.
Proof.
  intros H. unfold prepare. unfold Eff.bind at 1. unfold Eff.lift at 1.
  rewrite (check_t0_nonzero a H). reflexivity.
Qed.

(** With a seed of zero the generator is left as the caller had it. *)
Lemma seeding_skipped (a : args) (g : rng co) :
  random_seed a = 0%Z -> seeding co a g = (inr tt, g).
Proof. intros H. unfold seeding. rewrite H. reflexivity. Qed.

(** With another seed the state installed depends on the seed alone. *)
Lemma seeding_done (a : args) (g : rng co) :
  random_seed a <> 0%Z ->
  seeding co a g
  = match seed_state co (random_seed a) with
    | inl e => (inl e, g)
    | inr g' => (inr tt, g')
    end.
Proof.
  intros H. unfold seeding.
  destruct (Z.eqb_spec (random_seed a) 0) as [E | _]; [contradiction |].
  reflexivity.
Qed.

(** Two runs agree when they are the same from some point on, or when
    both raise the same exception. *)
Definition agree (A : Type) (p q : Py.result A * rng co) : Prop :=
  p = q \/ exists e, fst p = inl e /\ fst q = inl e.

Lemma agree_fst (A : Type) (p q : Py.result A * rng co) :
  agree p q -> fst p = fst q.
Proof. intros [-> | (e & -> & ->)]; reflexivity. Qed.

Lemma agree_bind (A B : Type) (m : Eff.io (rng co) A)
      (k : A -> Eff.io (rng co) B) (g1 g2 : rng co) :
  agree (m g1) (m g2) -> agree (Eff.bind m k g1) (Eff.bind m k g2).
Proof.
  unfold agree, Eff.bind. intros [E | (e & E1 & E2)].
  - left. rewrite E. reflexivity.
  - right. exists e.
    destruct (m g1) as [[e1 | a1] s1], (m g2) as [[e2 | a2] s2];
      simpl in *; try discriminate.
    injection E1 as ->. injection E2 as ->. split; reflexivity.
Qed.

Lemma prepare_seeded (a : args) (g1 g2 : rng co) :
  random_seed a <> 0%Z -> agree (prepare co a g1) (prepare co a g2).
Proof.
  intros Hseed. destruct (Req_dec_T (t0 a) 0) as [Hz | Hnz].
  - right. rewrite !(prepare_zero_t0 a _ Hz). eexists. split; reflexivity.
  - rewrite !(prepare_nonzero_t0 a _ Hnz). unfold Eff.bind.
    rewrite !(seeding_done a _ Hseed).
    destruct (seed_state co (random_seed a)) as [e | g'].
    + right. exists e. split; reflexivity.
    + left. reflexivity.
Qed.

Lemma integrate_rd_seeded (a : args) (g1 g2 : rng co) :
  random_seed a <> 0%Z ->
  agree (integrate_rd co a g1) (integrate_rd co a g2).
Proof.
  intros Hseed. unfold integrate_rd, integrate_rd_frame.
  apply agree_bind, agree_bind, prepare_seeded, Hseed.
Qed.

(** The grid a run has generated, if it got that far. *)
Definition grid_of (p : Py.result (setup co) * rng co) : option Np.vector :=
  match fst p with
  | inr s => Some (grid s)
  | inl _ => None
  end.

End DriverFacts.

(** *** The values built before the integrator is called *)

Section SetupFacts.

Import Chemreac IntegrateRd.
Local Open Scope R_scope.

Lemma linspace_length (start stop : R) (num : Z) (ts : Np.vector) :
  Np.linspace start stop num = inr ts ->
  (0 <= num)%Z /\ length ts = Z.to_nat num.
Proof.
  unfold Np.linspace. destruct (Z.ltb_spec num 0) as [Hneg | Hpos].
  - discriminate.
  - intros H. injection H as <-. rewrite length_map, length_seq.
    split; [exact Hpos | reflexivity].
Qed.

(** The first sample of [linspace] is its starting point. *)
Lemma linspace_head (start stop : R) (num : Z) (t1 : R) (ts : Np.vector) :
  Np.linspace start stop num = inr (t1 :: ts) -> t1 = start.
Proof.
  unfold Np.linspace. destruct (num <? 0)%Z; [discriminate |].
  intros H. injection H as H.
  destruct (Z.to_nat num) as [| [| m]]; simpl in H.
  - discriminate H.
  - injection H as <- _. ring.
  - injection H as <- _. ring.
Qed.

Lemma combine_map_map (A B C : Type) (f : A -> B) (g : A -> C) (l : list A) :
  combine (map f l) (map g l) = map (fun a => (f a, g a)) l.
Proof. induction l as [| a l IH]; simpl; [| rewrite IH]; reflexivity. Qed.

(** Slicing the only column of a reshaped matrix gives the matrix back. *)
Lemma species_of_column (m : Np.matrix) :
  NpArray.species (map (map (fun v => [v])) m) 0 = inr m.
Proof.
  unfold NpArray.species.
  induction m as [| row m IH]; simpl; [reflexivity |].
  assert (Hrow : Py.mapM (fun cell : list R => NpArray.item cell 0)
                   (map (fun v => [v]) row) = inr row).
  { clear. induction row as [| v row IH]; simpl; [reflexivity |].
    rewrite IH. reflexivity. }
  rewrite Hrow, IH. reflexivity.
Qed.

Variable co : collaborators.

(** The reference profile at the initial time, cell by cell. *)
Definition initial_profile (a : args) (xj : R) : R :=
  ConstSurfConc.profile (D a) 1 (ConstSurfConc.position (logx a) xj) (t0 a).

Lemma after_seeding_shape (a : args) (g g' : rng co) (s : setup co) :
  after_seeding co a g = (inr s, g') ->
  (1 <= N a)%Z ->
  exists x1 xs,
    xcenters co (rd s) = x1 :: xs
    /\ Z.of_nat (length (x1 :: xs)) = N a
    /\ modulation_vector s = make_modulation a
    /\ modulated_rxns (system_args s) = [0; 1]%Z
    /\ modulation (system_args s) = [make_modulation a; make_modulation a]
    /\ source s = [factor a] :: map (fun _ => [0]) xs
    /\ Cref s
       = map (map (fun v => [v]))
             (ConstSurfConc.analytic (xcenters co (rd s)) (tout s)
                (D a) (x0 a) (xend a) (logx a) 1)
    /\ y0 s = [factor a; initial_profile a x1]
              :: map (fun xj => [0; initial_profile a xj]) xs.
Proof.
  intros H HN. unfold after_seeding in H.
  eff_step H as ts Hts.
  eff_step H as units Hunits.
  eff_step H as x Hgrid.
  eff_step H as sys Hsys.
  eff_step H as cref Hcref.
  eff_step H as cref0 Hcref0.
  eff_step H as src Hsrc.
  apply ret_inv in H as [-> _]. simpl.
  unfold NpArray.reshape_column in Hcref.
  destruct ((((N a =? -1) && (0 <? nt a))
             || ((0 <=? N a)
                 && ((nt a =? 0) || (N a =? Z.of_nat (length (xcenters co sys))))))%Z)%bool
    eqn:Hshape; [| discriminate Hcref].
  injection Hcref as <-.
  rewrite analytic_rows in Hcref0.
  destruct ts as [| t1 ts]; [discriminate Hcref0 |].
  pose proof (linspace_head _ _ _ Hts) as ->.
  apply linspace_length in Hts as [_ Hlen]. simpl in Hlen.
  assert (HL : N a = Z.of_nat (length (xcenters co sys))).
  { destruct (Z.eqb_spec (N a) (-1)) as [E | _]; [lia |].
    destruct (Z.eqb_spec (nt a) 0) as [E | _]; [rewrite E in Hlen; discriminate |].
    simpl in Hshape. apply andb_true_iff in Hshape as [_ Hshape].
    apply Z.eqb_eq, Hshape. }
  simpl in Hcref0. injection Hcref0 as <-.
  destruct (xcenters co sys) as [| x1 xs] eqn:Hxc.
  { simpl in HL. lia. }
  simpl in Hsrc. injection Hsrc as <-.
  exists x1, xs.
  split; [reflexivity |]. split; [symmetry; exact HL |].
  do 3 (split; [reflexivity |]).
  split; [| split].
  - unfold NpArray.zeros_like. rewrite !map_map. reflexivity.
  - rewrite analytic_rows. reflexivity.
  - unfold NpArray.concatenate_columns, NpArray.zeros_like. simpl.
    rewrite !map_map. unfold initial_profile. f_equal.
    rewrite combine_map_map, map_map. reflexivity.
Qed.

End SetupFacts.

(** ** [analytic_N_scaling.py]: the resolution sweep [main] *)

Module AnalyticNScaling.

Local Open Scope R_scope.

(** [FLAT, CYLINDRICAL, SPHERICAL] of chemreac: the ints 0, 1, 2. *)
Inductive geometry : Type := FLAT | CYLINDRICAL | SPHERICAL.

(** ['fcs'[geom]]. *)
Definition geom_char (g : geometry) : ascii :=
  match g with
  | FLAT => "f"
  | CYLINDRICAL => "c"
  | SPHERICAL => "s"
  end%char.

(** [Geom_names[geom]]. *)
Definition Geom_names (g : geometry) : string :=
  match g with
  | FLAT => "Flat"
  | CYLINDRICAL => "Cylindrical"
  | SPHERICAL => "Spherical"
  end.

(** What one call of [integrate_rd] (the one of [analytic_diffusion],
    which the sweep imports) returns: the error series over the output
    times, and the rest ([tout], [yout], [info], [sys]), which [main]
    only prints. *)
Record run (aux : Type) : Type := {
  rmsd_over_atol : Np.vector;
  rest : aux
}.

(** What is drawn for one (geometry, rate, stencil) triple: the axes
    [plt.subplot(3, 2, axes)], the measured points, the fitted
    polynomial [p] and the dashed line it gives, and the legend entry
    [str(nstencil) + ': ' + str(round(-p[0], 1))]. *)
Record panel : Type := {
  axes : Z;
  marker : option ascii;
  color : option ascii;
  points : list Z * Np.vector;
  p : R * R;
  fit_line : list Z * Np.vector;
  label : Z * R;
  title : string
}.

(** What a run of [main] does to the outside world, in order. *)
Inductive event : Type :=
| Integrated (N nstencil : Z) (k : R) (geom : ascii)
| Drawn (pn : panel)
| Shown (savefig : string).

(** The collaborators of [main]: the builtin [float], the driver
    [integrate_rd], the numpy release as far as it decides how a float
    used as a slice bound is read, [np.polyfit] at degree 1 (slope
    first, then intercept), and the plotting calls. *)
Record collaborators : Type := {
  aux : Type;
  float : string -> Py.result R;
  integrate_rd : Z -> Z -> R -> ascii -> R -> R -> Py.result (run aux);
  float_bounds : Np.float_bounds;
  polyfit1 : Np.vector -> Np.vector -> Py.result (R * R);
  figure : Py.result unit;
  draw : panel -> Py.result unit;
  save_and_or_show_plot : string -> Py.result unit
}.

Definition nstencils : list Z := [3; 5; 7]%Z.

Definition geometries : list geometry := [FLAT; CYLINDRICAL; SPHERICAL].

(** The tolerances the sweep passes: [atol=1e-8, rtol=1e-10]. *)
Definition atol : R := / 10 ^ 8.
Definition rtol : R := / 10 ^ 10.

(** The resolution ladder and its length:
    [[8*(2**i) for i in range(nNs)]] when no list is given, else
    [list(map(int, Ns.split(',')))] and [nNs = len(Ns)]. *)
Definition resolution_ladder (nNs : Z) (Ns : option string)
  : Py.result (list Z * Z) :=
  match Ns with
  | None => Py.ret (map (fun i => 8 * 2 ^ i)%Z (Py.range nNs), nNs)
  | Some s =>
      (l <- Py.mapM PyText.int (PyText.split "," s) ;;
       Py.ret (l, Z.of_nat (length l)))%py
  end.

(** [np.average(series, axis=1)] for a tuple of series: they must all
    have the same length. *)
Definition average_rows (m : Np.matrix) : Py.result Np.vector :=
  match m with
  | [] => Py.ret []
  | r :: rs =>
      if forallb (fun r' => Nat.eqb (length r') (length r)) rs
      then Py.ret (map Np.average m)
      else Py.raise (Py.ValueError "axis 1 is out of bounds")
  end.

(** [np.polyval(p, xs)] at degree 1. *)
Definition polyval1 (p : R * R) (xs : Np.vector) : Np.vector :=
  map (fun x => fst p * x + snd p) xs.

Section Sweep.

Variable co : collaborators.

Definition io (A : Type) : Type := Eff.io (list event) A.

Definition emit (e : event) : io unit := fun log => (inr tt, log ++ [e]).

Definition call_integrate_rd (nstencil : Z) (rate : R) (geom : geometry)
           (N : Z) : io (run (aux co)) :=
  (emit (Integrated N nstencil rate (geom_char geom)) ;;;
   Eff.lift (integrate_rd co N nstencil rate (geom_char geom) atol rtol))%io.

(** The error of every resolution and, when [plot] is set, the fit and
    what is drawn from it. *)
Definition analyse (plot : bool) (nNs : Z) (Ns : list Z) (nfit : Np.vector)
           (gi : Z) (geom : geometry) (ri : Z) (rate : R)
           (si nstencil : Z) (runs : list (run (aux co)))
  : Py.result (Np.vector * option panel) :=
  (err <- average_rows (map (@rmsd_over_atol _) runs) ;;
   logNs <- Np.log_ints Ns ;;
   let logerr := map ln err in
   if plot then
     nf <- NpArray.item nfit (Z.to_nat si) ;;
     stop <- Np.slice_bound (float_bounds co) nf ;;
     fit <- polyfit1 co (Py.slice_to stop logNs) (Py.slice_to stop logerr) ;;
     Py.ret (err,
             Some {| axes := gi * 2 + ri + 1;
                     marker := String.get (Z.to_nat si) "osd";
                     color := String.get (Z.to_nat si) "rbk";
                     points := (Ns, err);
                     p := fit;
                     fit_line :=
                       (Py.slice_to (nNs - si) Ns,
                        map exp (polyval1 fit (Py.slice_to (nNs - si) logNs)));
                     label := (nstencil, PyFloat.round (- fst fit) 1);
                     title :=
                       if Req_dec_T rate 0
                       then (Geom_names geom ++ " diffusion")%string
                       else (Geom_names geom ++ " diffusion + 1 decay")%string
                  |})
   else Py.ret (err, None))%py.

(** The body of the innermost loop. Unpacking the zipped results into
    five names needs at least one resolution. *)
Definition triple (plot : bool) (nNs : Z) (Ns : list Z) (nfit : Np.vector)
           (gi : Z) (geom : geometry) (ri : Z) (rate : R) (si nstencil : Z)
  : io unit :=
  (runs <- Eff.collect (call_integrate_rd nstencil rate geom) Ns ;;
   Eff.lift (match runs with
             | [] => Py.raise (Py.ValueError "not enough values to unpack")
             | _ => Py.ret tt
             end) ;;;
   result <- Eff.lift (analyse plot nNs Ns nfit gi geom ri rate si nstencil runs) ;;
   match snd result with
   | Some pn => emit (Drawn pn) ;;; Eff.lift (draw co pn)
   | None => Eff.ret tt
   end)%io.

Definition main (plot : bool) (savefig : string) (nNs : Z)
           (Ns : option string) (rates nfit : string) : io unit :=
  (nfit <- Eff.lift (Py.mapM (float co) (PyText.split "," nfit)) ;;
   ladder <- Eff.lift (resolution_ladder nNs Ns) ;;
   Eff.when plot (Eff.lift (figure co)) ;;;
   rates <- Eff.lift (Py.mapM (float co) (PyText.split "," rates)) ;;
   Eff.for_each
     (fun g =>
        Eff.for_each
          (fun r =>
             Eff.for_each
               (fun s =>
                  triple plot (snd ladder) (fst ladder) nfit
                         (fst g) (snd g) (fst r) (snd r) (fst s) (snd s))
               (Eff.enumerate nstencils))
          (Eff.enumerate rates))
     (Eff.enumerate geometries) ;;;
   Eff.when plot
     (emit (Shown savefig) ;;; Eff.lift (save_and_or_show_plot co savefig)))%io.

(** The (geometry, rate, stencil) triples in the order the loops visit
    them, each with its three positions. *)
Definition sweep_order (rates : Np.vector)
  : list ((Z * geometry) * (Z * R) * (Z * Z)) :=
  flat_map
    (fun g =>
       flat_map
         (fun r => map (fun s => (g, r, s)) (Eff.enumerate nstencils))
         (Eff.enumerate rates))
    (Eff.enumerate geometries).

Definition visit (plot : bool) (nNs : Z) (Ns : list Z) (nfit : Np.vector)
           (t : (Z * geometry) * (Z * R) * (Z * Z)) : io unit :=
  let '(g, r, s) := t in
  triple plot nNs Ns nfit (fst g) (snd g) (fst r) (snd r) (fst s) (snd s).

End Sweep.

End AnalyticNScaling.

(** *** The resolution ladder *)

Section LadderFacts.

Import AnalyticNScaling.

(** A list that starts at [b] and doubles at every step. *)
Fixpoint doubling_from (b : Z) (l : list Z) : Prop :=
  match l with
  | [] => True
  | n :: l' => n = b /\ doubling_from (2 * b) l'
  end.

Lemma powers_doubling (k n : nat) :
  doubling_from (8 * 2 ^ Z.of_nat k)
    (map (fun i => 8 * 2 ^ i)%Z (map Z.of_nat (seq k n))).
Proof.
  revert k. induction n as [| n IH]; intros k;
    cbn [seq map doubling_from]; [exact I |].
  split; [reflexivity |].
  replace (2 * (8 * 2 ^ Z.of_nat k))%Z with (8 * 2 ^ Z.of_nat (S k))%Z.
  - apply IH.
  - rewrite Nat2Z.inj_succ, Z.pow_succ_r by lia. ring.
Qed.

Lemma powers_nth (k n i : nat) :
  (i < n)%nat ->
  nth_error (map (fun i => 8 * 2 ^ i)%Z (map Z.of_nat (seq k n))) i
  = Some (8 * 2 ^ Z.of_nat (k + i))%Z.
Proof.
  intros Hi. rewrite map_map, nth_error_map.
  rewrite nth_error_seq.
  destruct (Nat.ltb_spec i n) as [_ | Hge]; [reflexivity | lia].
Qed.

End LadderFacts.

(** C7. Without an explicit list the resolution ladder has [nNs]
    entries, starts at 8 and doubles at every step, its entry [i] being
    [8 * 2^i]; the default [nNs = 7] gives 8, 16, ..., 512.  With an
    explicit comma-separated list the ladder is that list of ints, in
    order, and [nNs] becomes its length. *)
Theorem resolution_ladder_doubles_or_is_given :
  (forall nNs : Z,
      exists Ns,
        AnalyticNScaling.resolution_ladder nNs None = inr (Ns, nNs)
        /\ length Ns = Z.to_nat nNs
        /\ doubling_from 8 Ns
        /\ forall i, (i < Z.to_nat nNs)%nat ->
                     nth_error Ns i = Some (8 * 2 ^ Z.of_nat i)%Z)
  /\ AnalyticNScaling.resolution_ladder 7 None
     = inr ([8; 16; 32; 64; 128; 256; 512]%Z, 7%Z)
  /\ (forall (nNs : Z) (n : Z) (l : list Z),
         AnalyticNScaling.resolution_ladder nNs
           (Some (PyText.join "," (map PyText.str (n :: l))))
         = inr (n :: l, Z.of_nat (length (n :: l)))).
Proof.
  split; [| split].
  - intros nNs. eexists. split; [reflexivity |]. split; [| split].
    + unfold Py.range. rewrite !length_map, length_seq. reflexivity.
    + apply (powers_doubling 0).
    + intros i Hi. apply (powers_nth 0 Hi).
  - reflexivity.
  - intros nNs n l. unfold AnalyticNScaling.resolution_ladder.
    rewrite split_join.
    + rewrite mapM_int_str. reflexivity.
    + discriminate.
    + apply Forall_forall. intros s Hs.
      apply in_map_iff in Hs as (z & <- & _).
      apply all_chars_weaken with (p := PyText.is_int_char);
        [| apply str_chars].
      intros c Hc. apply (is_int_char_not_comma c Hc).
Qed.

Lemma resolution_ladder_doubles_or_is_given_witness :
  AnalyticNScaling.resolution_ladder 3 (Some "8,16,32,64"%string)
  = inr ([8; 16; 32; 64]%Z, 4%Z).
Proof.
  exact (proj2 (proj2 resolution_ladder_doubles_or_is_given)
           3%Z 8%Z [16; 32; 64]%Z).
Defined.

(** *** Runs of [integrate_rd] with the reference collaborators *)

Section ReferenceRuns.

Import IntegrateRd.
Local Open Scope R_scope.

(** Unfolds a run with the reference collaborators down to its value. *)
Ltac run_reference :=
  unfold integrate_rd, integrate_rd_frame, prepare, after_seeding, seeding,
    Eff.bind, Eff.lift, Eff.when, Eff.ret;
  rewrite check_t0_nonzero by (simpl; lra);
  rewrite make_units_nonzero by (simpl; lra);
  simpl.

Lemma reference_prepare_runs :
  exists s g',
    prepare Reference.collaborators (Reference.example 1 2 2 false 42) 0%Z
    = (inr s, g').
Proof. run_reference. eexists. eexists. reflexivity. Qed.

Lemma reference_frame_runs :
  exists f g',
    integrate_rd_frame Reference.collaborators
      (Reference.example 1 2 2 false 42) 0%Z
    = (inr f, g').
Proof. run_reference. eexists. eexists. reflexivity. Qed.

(** The reference run over two output times: its error series has two
    entries. *)
Lemma reference_frame_series :
  exists f g' e1 e2,
    integrate_rd_frame Reference.collaborators
      (Reference.example 1 2 2 false 42) 0%Z = (inr f, g')
    /\ spat_ave_rmsd_over_atol f = [e1; e2]
    /\ Forall (fun t => PyFloat.normal (1 * t)) (tout (before f)).
Proof.
  run_reference. eexists. eexists. eexists. eexists.
  split; [reflexivity |]. split; [reflexivity |].
  simpl.
  constructor; [apply normal_moderate; simpl; lra |].
  constructor; [apply normal_moderate; simpl; lra | constructor].
Qed.

Lemma reference_run_negative_t0 :
  exists r g',
    integrate_rd Reference.collaborators
      (Reference.example (-1) 2 2 false 42) 0%Z
    = (inr r, g')
    /\ nth 0 (fst (fst (fst (fst r)))) 0 = -1.
Proof.
  run_reference. eexists. eexists. split; [reflexivity |]. simpl. lra.
Qed.

(** With the perturbation on and no seeding, the second edge of the
    grid depends on the state the generator is in. *)
Lemma reference_unseeded_grids :
  exists x1 x2,
    grid_of (prepare Reference.collaborators
               (Reference.example 1 2 2 true 0) 0%Z) = Some x1
    /\ grid_of (prepare Reference.collaborators
                  (Reference.example 1 2 2 true 0) 1%Z) = Some x2
    /\ nth 1 x1 0 < nth 1 x2 0.
Proof.
  eexists. eexists. split; [| split].
  - run_reference. reflexivity.
  - run_reference. reflexivity.
  - simpl. unfold Reference.jitter.
    change (0 mod 2)%Z with 0%Z. change (1 mod 2)%Z with 1%Z. lra.
Qed.

End ReferenceRuns.

(** *** What a completed run of [integrate_rd] has computed *)

Section RunFacts.

Import Chemreac IntegrateRd.
Local Open Scope R_scope.

Variable co : collaborators.

Lemma prepare_inv (a : args) (g g' : rng co) (s : setup co) :
  prepare co a g = (inr s, g') ->
  t0 a <> 0
  /\ exists g1, seeding co a g = (inr tt, g1)
                /\ after_seeding co a g1 = (inr s, g').
Proof.
  intros H. destruct (Req_dec_T (t0 a) 0) as [Hz | Hnz].
  - rewrite (prepare_zero_t0 co a g Hz) in H. discriminate H.
  - split; [exact Hnz |].
    rewrite (prepare_nonzero_t0 co a g Hnz) in H.
    apply bind_inv in H as (u & g1 & Hseed & H).
    destruct u. exists g1. split; assumption.
Qed.

Lemma after_seeding_Cref (a : args) (g g' : rng co) (s : setup co) :
  after_seeding co a g = (inr s, g') ->
  Cref s
  = map (map (fun v => [v]))
        (ConstSurfConc.analytic (xcenters co (rd s)) (tout s)
           (D a) (x0 a) (xend a) (logx a) 1).
Proof.
  intros H. unfold after_seeding in H.
  do 7 (eff_inv H).
  apply ret_inv in H as [-> _]. simpl.
  match goal with
  | Hr : NpArray.reshape_column _ _ _ _ = inr _ |- _ =>
      unfold NpArray.reshape_column in Hr;
      destruct (_ || _)%bool in Hr; [| discriminate Hr];
      injection Hr as <-
  end.
  reflexivity.
Qed.

Lemma modulation_beyond_first_cell (k n : nat) :
  (0 < k)%nat ->
  map (fun i => if (i =? 0)%Z then 1%Z else 0%Z) (map Z.of_nat (seq k n))
  = repeat 0%Z n.
Proof.
  revert k. induction n as [| n IH]; intros k Hk; cbn [seq map repeat];
    [reflexivity |].
  destruct (Z.eqb_spec (Z.of_nat k) 0) as [E | _]; [lia |].
  f_equal. apply IH. lia.
Qed.

(** [[1 if (i == 0) else 0 for i in range(N)]] for [N >= 1]. *)
Lemma make_modulation_first_cell (a : args) :
  (1 <= N a)%Z ->
  make_modulation a = 1%Z :: repeat 0%Z (Z.to_nat (N a) - 1).
Proof.
  intros HN. unfold make_modulation, Py.range.
  destruct (Z.to_nat (N a)) as [| n] eqn:E; [lia |].
  cbn [seq map]. rewrite Z.eqb_refl. f_equal.
  replace (S n - 1)%nat with n by lia.
  apply modulation_beyond_first_cell. lia.
Qed.

Lemma frame_inv (a : args) (g g' : rng co) (f : frame co) :
  integrate_rd_frame co a g = (inr f, g') ->
  prepare co a g = (inr (before f), g')
  /\ exists Cout1 rmsd,
       NpArray.species (Cout (integr f)) 1 = inr Cout1
       /\ NpArray.species (Cref (before f)) 0
          = inr (ConstSurfConc.analytic (xcenters co (rd (before f)))
                   (tout (before f)) (D a) (x0 a) (xend a) (logx a) 1)
       /\ spat_ave_rmsd_vs_time co Cout1
            (ConstSurfConc.analytic (xcenters co (rd (before f)))
               (tout (before f)) (D a) (x0 a) (xend a) (logx a) 1)
          = inr rmsd
       /\ spat_ave_rmsd_over_atol f = map (fun e => e / atol a) rmsd
       /\ tot_ave_rmsd_over_atol f = Np.average (spat_ave_rmsd_over_atol f).
Proof.
  intros H. unfold integrate_rd_frame in H.
  apply bind_inv in H as (s & g1 & Hprep & H).
  eff_step H as run_result Hrun.
  eff_step H as row1 Hrow1.
  eff_step H as row2 Hrow2.
  eff_step H as Cout1 HCout1.
  eff_step H as Cref0 HCref0.
  eff_step H as rmsd Hrmsd.
  apply bind_inv in H as (u & g2 & Hdraw & H).
  apply ret_inv in H as [-> ->]. simpl.
  assert (Hg : g2 = g1).
  { unfold Eff.when in Hdraw. destruct (plot a).
    - apply lift_inv in Hdraw as [_ ->]. reflexivity.
    - apply ret_inv in Hdraw as [_ ->]. reflexivity. }
  subst g2.
  destruct (prepare_inv a g Hprep) as (_ & g0 & _ & Hafter).
  pose proof (after_seeding_Cref a g0 Hafter) as HC.
  assert (HCref0' : Cref0
                    = ConstSurfConc.analytic (xcenters co (rd s)) (tout s)
                        (D a) (x0 a) (xend a) (logx a) 1).
  { rewrite HC, species_of_column in HCref0. injection HCref0 as <-.
    reflexivity. }
  subst Cref0.
  split; [exact Hprep |].
  exists Cout1, rmsd. repeat split; try assumption.
Qed.

End RunFacts.

(** C2 (as amended). [integrate_rd] refuses an initial time of exactly
    zero: it raises the [ValueError] of its first statement, before the
    generator is seeded and before any collaborator is called.  No other
    time is checked: for every other [t0], negative ones included, the
    guard passes and the run goes on with the seeding; [analytic] itself
    has no check and returns a matrix for all its inputs. *)
Theorem zero_initial_time_is_refused
  (co : Chemreac.collaborators) (a : IntegrateRd.args) (g : Chemreac.rng co) :
  (IntegrateRd.t0 a = 0%R ->
   IntegrateRd.integrate_rd co a g
   = (inl (Py.ValueError "t0==0 => Dirac delta function C0 profile."), g))
  /\ (IntegrateRd.t0 a <> 0%R ->
      IntegrateRd.check_t0 a = inr tt
      /\ IntegrateRd.prepare co a g
         = Eff.bind (IntegrateRd.seeding co a)
                    (fun _ => IntegrateRd.after_seeding co a) g).
Proof.
  split.
  - intros Hz. unfold IntegrateRd.integrate_rd, IntegrateRd.integrate_rd_frame.
    apply bind_raises, bind_raises, prepare_zero_t0, Hz.
  - intros Hnz. split.
    + apply check_t0_nonzero, Hnz.
    + apply prepare_nonzero_t0, Hnz.
Qed.

Lemma zero_initial_time_is_refused_witness :
  IntegrateRd.integrate_rd Reference.collaborators
    (Reference.example 0 2 2 false 42) 5%Z
  = (inl (Py.ValueError "t0==0 => Dirac delta function C0 profile."), 5%Z).
Proof.
  apply (proj1 (zero_initial_time_is_refused Reference.collaborators
                  (Reference.example 0 2 2 false 42) 5%Z)).
  reflexivity.
Defined.

(** C2 as stated fails: with the reference collaborators a run whose
    initial time is -1 returns, its first output time being -1. *)
Lemma negative_initial_time_is_accepted :
  exists r g',
    IntegrateRd.integrate_rd Reference.collaborators
      (Reference.example (-1) 2 2 false 42) 0%Z
    = (inr r, g')
    /\ (nth 0 (fst (fst (fst (fst r)))) 0 = -1)%R
    /\ (-1 <= 0)%R.
Proof.
  destruct reference_run_negative_t0 as (r & g' & Hrun & Ht).
  exists r, g'. split; [exact Hrun |]. split; [exact Ht | lra].
Qed.

(** C8 (as amended). For a seed other than zero, two runs of
    [integrate_rd] with the same arguments give the same outcome whatever
    state the random generator was in before: the generator is seeded
    before the grid is generated, so the grids are the same, and so are
    the returned values, the error measure among them (the collaborators
    are functions of their arguments and of the generator's state). *)
Theorem seeded_runs_are_reproducible
  (co : Chemreac.collaborators) (a : IntegrateRd.args)
  (g1 g2 : Chemreac.rng co) :
  IntegrateRd.random_seed a <> 0%Z ->
  grid_of (IntegrateRd.prepare co a g1) = grid_of (IntegrateRd.prepare co a g2)
  /\ fst (IntegrateRd.integrate_rd co a g1)
     = fst (IntegrateRd.integrate_rd co a g2).
Proof.
  intros Hseed. split.
  - unfold grid_of. rewrite (agree_fst (prepare_seeded co a g1 g2 Hseed)).
    reflexivity.
  - apply agree_fst, integrate_rd_seeded, Hseed.
Qed.

Lemma seeded_runs_are_reproducible_witness :
  grid_of (IntegrateRd.prepare Reference.collaborators
             (Reference.example 1 2 2 true 42) 0%Z)
  = grid_of (IntegrateRd.prepare Reference.collaborators
               (Reference.example 1 2 2 true 42) 1%Z)
  /\ fst (IntegrateRd.integrate_rd Reference.collaborators
            (Reference.example 1 2 2 true 42) 0%Z)
     = fst (IntegrateRd.integrate_rd Reference.collaborators
              (Reference.example 1 2 2 true 42) 1%Z).
Proof.
  apply (@seeded_runs_are_reproducible Reference.collaborators
           (Reference.example 1 2 2 true 42) 0%Z 1%Z).
  simpl. lia.
Defined.

(** C8 as stated fails for the seed 0: with the perturbation on, two
    runs with the same arguments and [random_seed = 0] that start from
    different generator states get different grids. *)
Lemma zero_seed_runs_differ :
  exists x1 x2,
    grid_of (IntegrateRd.prepare Reference.collaborators
               (Reference.example 1 2 2 true 0) 0%Z) = Some x1
    /\ grid_of (IntegrateRd.prepare Reference.collaborators
                  (Reference.example 1 2 2 true 0) 1%Z) = Some x2
    /\ (nth 1 x1 0 < nth 1 x2 0)%R.
Proof. exact reference_unseeded_grids. Qed.

(** C9. In a call of [integrate_rd] with [N >= 1] that reaches the
    integrator, the modulation vector is 1 in cell 0 and 0 in every other
    cell and is given for both reactions (0 and 1); the system has [N]
    cells, and the initial condition has one row per cell, made of the
    source column ([factor] in cell 0, 0 elsewhere) and of a second
    column, the first time row of the analytic reference.  Where the
    product [D*t0] is in the range of the normal doubles, that column is
    the closed form [erfc(x'_j / (2*sqrt(D*t0)))] at the cell centres;
    for a negative initial time or [D = 0] the script's column holds NaN
    or 0, of which nothing is said. *)
Theorem source_is_confined_to_first_cell
  (co : Chemreac.collaborators) (a : IntegrateRd.args)
  (g g' : Chemreac.rng co) (s : IntegrateRd.setup co) :
  IntegrateRd.prepare co a g = (inr s, g') ->
  (1 <= IntegrateRd.N a)%Z ->
  let m := 1%Z :: repeat 0%Z (Z.to_nat (IntegrateRd.N a) - 1) in
  let c := fun xj =>
             (1 * Special.erfc
                    ((if IntegrateRd.logx a then exp xj else xj)
                     / (2 * sqrt (IntegrateRd.D a * IntegrateRd.t0 a))))%R in
  IntegrateRd.modulation_vector s = m
  /\ Chemreac.modulated_rxns (IntegrateRd.system_args s) = [0; 1]%Z
  /\ Chemreac.modulation (IntegrateRd.system_args s) = [m; m]
  /\ exists x1 xs c1 cs,
       Chemreac.xcenters co (IntegrateRd.rd s) = x1 :: xs
       /\ Z.of_nat (length (x1 :: xs)) = IntegrateRd.N a
       /\ IntegrateRd.source s
          = [IntegrateRd.factor a] :: map (fun _ => [0%R]) xs
       /\ length cs = length xs
       /\ IntegrateRd.y0 s
          = [IntegrateRd.factor a; c1] :: map (fun cj => [0%R; cj]) cs
       /\ (PyFloat.normal (IntegrateRd.D a * IntegrateRd.t0 a) ->
           c1 :: cs = map c (x1 :: xs)).
Proof.
  intros Hprep HN m c.
  destruct (prepare_inv a g Hprep) as (_ & g1 & _ & Hafter).
  destruct (after_seeding_shape a g1 Hafter HN)
    as (x1 & xs & Hxc & Hlen & Hm & Hrxns & Hmod & Hsrc & _ & Hy0).
  rewrite (make_modulation_first_cell a HN) in Hm, Hmod.
  repeat (split; [assumption |]).
  exists x1, xs, (c x1), (map c xs). repeat (split; [assumption |]).
  split; [apply length_map |].
  split; [rewrite map_map; exact Hy0 |].
  intros _. reflexivity.
Qed.

Lemma source_is_confined_to_first_cell_witness :
  exists s g' x1 xs c1 cs,
    IntegrateRd.prepare Reference.collaborators
      (Reference.example 1 2 2 false 42) 0%Z = (inr s, g')
    /\ IntegrateRd.modulation_vector s = [1; 0]%Z
    /\ Chemreac.modulation (IntegrateRd.system_args s) = [[1; 0]; [1; 0]]%Z
    /\ Chemreac.xcenters Reference.collaborators (IntegrateRd.rd s) = x1 :: xs
    /\ IntegrateRd.y0 s = [(10 ^ 5)%R; c1] :: map (fun cj => [0%R; cj]) cs
    /\ c1 :: cs
       = map (fun xj => 1 * Special.erfc (xj / (2 * sqrt (1 * 1))))%R
             (x1 :: xs).
Proof.
  destruct reference_prepare_runs as (s & g' & Hrun).
  destruct (@source_is_confined_to_first_cell Reference.collaborators
              (Reference.example 1 2 2 false 42) 0%Z g' s Hrun)
    as (Hm & _ & Hmod & x1 & xs & c1 & cs & Hxc & _ & _ & _ & Hy0 & Hcol).
  - simpl. lia.
  - exists s, g', x1, xs, c1, cs.
    split; [exact Hrun |]. split; [exact Hm |]. split; [exact Hmod |].
    split; [exact Hxc |]. split; [exact Hy0 |].
    apply Hcol. apply normal_moderate. simpl. lra.
Defined.

(** C10. With [random_seed = 0] the seeding is skipped: the generator
    keeps the state the caller left it in, and the grid is generated from
    that state.  So with the perturbation on, two runs with seed 0 can
    get different grids (the reference collaborators give such a pair),
    while for every other seed the grids of two runs agree. *)
Theorem zero_seed_skips_seeding :
  (forall (co : Chemreac.collaborators) (a : IntegrateRd.args)
          (g : Chemreac.rng co),
      IntegrateRd.random_seed a = 0%Z ->
      IntegrateRd.seeding co a g = (inr tt, g)
      /\ IntegrateRd.prepare co a g
         = Eff.bind (Eff.lift (IntegrateRd.check_t0 a))
                    (fun _ => IntegrateRd.after_seeding co a) g)
  /\ (exists a g1 g2 x1 x2,
         IntegrateRd.random_seed a = 0%Z
         /\ IntegrateRd.random a = true
         /\ grid_of (IntegrateRd.prepare Reference.collaborators a g1) = Some x1
         /\ grid_of (IntegrateRd.prepare Reference.collaborators a g2) = Some x2
         /\ (nth 1 x1 0 < nth 1 x2 0)%R)
  /\ (forall (co : Chemreac.collaborators) (a : IntegrateRd.args)
             (g1 g2 : Chemreac.rng co),
         IntegrateRd.random_seed a <> 0%Z ->
         grid_of (IntegrateRd.prepare co a g1)
         = grid_of (IntegrateRd.prepare co a g2)).
Proof.
  split; [| split].
  - intros co a g Hseed.
    pose proof (seeding_skipped co a g Hseed) as Hskip.
    split; [exact Hskip |].
    unfold IntegrateRd.prepare, Eff.bind, Eff.lift.
    destruct (IntegrateRd.check_t0 a) as [e | u]; [reflexivity |].
    unfold IntegrateRd.seeding, Eff.when. rewrite Hseed. reflexivity.
  - destruct reference_unseeded_grids as (x1 & x2 & H1 & H2 & Hlt).
    exists (Reference.example 1 2 2 true 0), 0%Z, 1%Z, x1, x2.
    repeat (split; [first [reflexivity | assumption] |]). exact Hlt.
  - intros co a g1 g2 Hseed. unfold grid_of.
    rewrite (agree_fst (prepare_seeded co a g1 g2 Hseed)). reflexivity.
Qed.

Lemma zero_seed_skips_seeding_witness :
  IntegrateRd.seeding Reference.collaborators
    (Reference.example 1 2 2 true 0) 7%Z
  = (inr tt, 7%Z).
Proof.
  apply (proj1 zero_seed_skips_seeding Reference.collaborators
           (Reference.example 1 2 2 true 0) 7%Z).
  reflexivity.
Defined.

(** *** Loops *)

Section LoopFacts.

Variable S : Type.

Lemma for_each_ext (A : Type) (body1 body2 : A -> Eff.io S unit) (l : list A) :
  (forall a s, body1 a s = body2 a s) ->
  forall s, Eff.for_each body1 l s = Eff.for_each body2 l s.
Proof.
  intros Hext. induction l as [| a l IH]; intros s; simpl; [reflexivity |].
  unfold Eff.bind. rewrite Hext.
  destruct (body2 a s) as [[e | u] s']; [reflexivity | apply IH].
Qed.

Lemma for_each_map (A B : Type) (h : A -> B) (body : B -> Eff.io S unit)
      (l : list A) (s : S) :
  Eff.for_each (fun a => body (h a)) l s = Eff.for_each body (map h l) s.
Proof.
  revert s. induction l as [| a l IH]; intros s; simpl; [reflexivity |].
  unfold Eff.bind. destruct (body (h a) s) as [[e | u] s'];
    [reflexivity | apply IH].
Qed.

Lemma for_each_concat (A : Type) (body : A -> Eff.io S unit)
      (l1 l2 : list A) (s : S) :
  Eff.for_each body (l1 ++ l2) s
  = Eff.bind (Eff.for_each body l1) (fun _ => Eff.for_each body l2) s.
Proof.
  revert s. induction l1 as [| a l1 IH]; intros s; simpl.
  - reflexivity.
  - unfold Eff.bind. destruct (body a s) as [[e | u] s'].
    + reflexivity.
    + rewrite IH. unfold Eff.bind. reflexivity.
Qed.

(** A loop within a loop visits the concatenation of the inner lists. *)
Lemma for_each_nested (A B : Type) (inner : A -> list B)
      (body : B -> Eff.io S unit) (l : list A) (s : S) :
  Eff.for_each (fun a => Eff.for_each body (inner a)) l s
  = Eff.for_each body (flat_map inner l) s.
Proof.
  revert s. induction l as [| a l IH]; intros s; simpl; [reflexivity |].
  rewrite for_each_concat. unfold Eff.bind.
  destruct (Eff.for_each body (inner a) s) as [[e | u] s'];
    [reflexivity | apply IH].
Qed.

End LoopFacts.

(** *** How the sweep runs *)

Section SweepFacts.

Import AnalyticNScaling.
Local Open Scope R_scope.

Variable co : collaborators.

(** The record of the solver calls for the resolutions [Ns] of a triple. *)
Definition calls (nstencil : Z) (rate : R) (geom : geometry) (Ns : list Z)
  : list event :=
  map (fun N => Integrated N nstencil rate (geom_char geom)) Ns.

Lemma call_integrate_rd_run (nstencil : Z) (rate : R) (geom : geometry)
      (N : Z) (log : list event) :
  call_integrate_rd co nstencil rate geom N log
  = (integrate_rd co N nstencil rate (geom_char geom) atol rtol,
     log ++ calls nstencil rate geom [N]).
Proof. reflexivity. Qed.

(** The comprehension over the resolutions stops at the first one for
    which the solver raises. *)
Lemma collect_stops (nstencil : Z) (rate : R) (geom : geometry)
      (done : list Z) (N : Z) (rest : list Z) (e : Py.exn)
      (log : list event) :
  (forall M, In M done ->
             exists r, integrate_rd co M nstencil rate (geom_char geom) atol rtol
                       = inr r) ->
  integrate_rd co N nstencil rate (geom_char geom) atol rtol = inl e ->
  Eff.collect (call_integrate_rd co nstencil rate geom) (done ++ N :: rest) log
  = (inl e, log ++ calls nstencil rate geom (done ++ [N])).
Proof.
  intros Hdone HN. revert log.
  induction done as [| M done IH]; intros log.
  - simpl. unfold Eff.bind. rewrite call_integrate_rd_run, HN. reflexivity.
  - destruct (Hdone M (or_introl eq_refl)) as (r & Hr).
    cbn [app Eff.collect]. unfold Eff.bind at 1.
    rewrite call_integrate_rd_run, Hr.
    unfold Eff.bind at 1. rewrite IH.
    + unfold calls. cbn [map app]. rewrite <- app_assoc. reflexivity.
    + intros M' HM'. apply Hdone. right. exact HM'.
Qed.

Lemma triple_stops (plot : bool) (nNs : Z) (nfit : Np.vector)
      (gi : Z) (geom : geometry) (ri : Z) (rate : R) (si nstencil : Z)
      (done : list Z) (N : Z) (rest : list Z) (e : Py.exn)
      (log : list event) :
  (forall M, In M done ->
             exists r, integrate_rd co M nstencil rate (geom_char geom) atol rtol
                       = inr r) ->
  integrate_rd co N nstencil rate (geom_char geom) atol rtol = inl e ->
  triple co plot nNs (done ++ N :: rest) nfit gi geom ri rate si nstencil log
  = (inl e, log ++ calls nstencil rate geom (done ++ [N])).
Proof.
  intros Hdone HN. unfold triple. apply bind_raises.
  apply collect_stops; assumption.
Qed.

(** The three nested loops visit the triples of [sweep_order]. *)
Lemma loops_visit_sweep_order (plot : bool) (nNs : Z) (Ns : list Z)
      (nfit rates : Np.vector) (log : list event) :
  Eff.for_each
    (fun g =>
       Eff.for_each
         (fun r =>
            Eff.for_each
              (fun s =>
                 triple co plot nNs Ns nfit
                        (fst g) (snd g) (fst r) (snd r) (fst s) (snd s))
              (Eff.enumerate nstencils))
         (Eff.enumerate rates))
    (Eff.enumerate geometries) log
  = Eff.for_each (visit co plot nNs Ns nfit) (sweep_order rates) log.
Proof.
  unfold sweep_order. rewrite <- for_each_nested.
  apply for_each_ext. intros g s.
  rewrite <- for_each_nested.
  apply for_each_ext. intros r s'.
  rewrite <- for_each_map. reflexivity.
Qed.

Lemma main_run (plot : bool) (savefig : string) (nNs : Z)
      (Ns_arg : option string) (rates_arg nfit_arg : string)
      (nfit rates : Np.vector) (Ns : list Z) (n : Z) (log : list event) :
  Py.mapM (float co) (PyText.split "," nfit_arg) = inr nfit ->
  resolution_ladder nNs Ns_arg = inr (Ns, n) ->
  (if plot then figure co else inr tt) = inr tt ->
  Py.mapM (float co) (PyText.split "," rates_arg) = inr rates ->
  main co plot savefig nNs Ns_arg rates_arg nfit_arg log
  = Eff.bind (Eff.for_each (visit co plot n Ns nfit) (sweep_order rates))
      (fun _ =>
         Eff.when plot
           (Eff.bind (emit (Shown savefig))
              (fun _ => Eff.lift (save_and_or_show_plot co savefig)))) log.
Proof.
  intros Hnfit Hladder Hfig Hrates. unfold main.
  unfold Eff.bind at 1. unfold Eff.lift at 1. rewrite Hnfit.
  unfold Eff.bind at 1. unfold Eff.lift at 1. rewrite Hladder.
  unfold Eff.bind at 1.
  assert (Hwhen : Eff.when plot (Eff.lift (figure co)) log = (inr tt, log)).
  { unfold Eff.when, Eff.lift, Eff.ret. destruct plot; rewrite ?Hfig; reflexivity. }
  rewrite Hwhen.
  unfold Eff.bind at 1. unfold Eff.lift at 1. rewrite Hrates.
  unfold Eff.bind at 1 2. cbn [fst snd].
  rewrite loops_visit_sweep_order. reflexivity.
Qed.

End SweepFacts.

(** ** A reference implementation of the collaborators of the sweep

    [float] reads plain decimal literals.  The solver returns an error
    series of one entry, [1/N^2], and raises for the (resolution, stencil)
    pairs it is told to fail on.  [polyfit1] is the least-squares line.
    Plotting does nothing.  The numpy release is one that truncates a
    float slice bound, unless said otherwise. *)

Module SweepReference.

Local Open Scope R_scope.
Import AnalyticNScaling.

Definition digits_value (s : string) : option Z :=
  option_map Z.of_uint (NilEmpty.uint_of_string s).

Definition float (s : string) : Py.result R :=
  let body := PyText.strip s in
  let '(negative, magnitude) :=
    match body with
    | String "-" r => (true, r)
    | String "+" r => (false, r)
    | _ => (false, body)
    end in
  let signed := fun v : R => if negative : bool then - v else v in
  let refused := Py.raise (Py.ValueError "could not convert string to float") in
  match PyText.split "." magnitude with
  | [whole] =>
      match whole, digits_value whole with
      | String _ _, Some w => Py.ret (signed (IZR w))
      | _, _ => refused
      end
  | [whole; frac] =>
      match digits_value whole, digits_value frac with
      | Some w, Some f =>
          if (String.length whole + String.length frac =? 0)%nat then refused
          else Py.ret (signed (IZR w + IZR f / 10 ^ String.length frac))
      | _, _ => refused
      end
  | _ => refused
  end.

Definition integrate_rd (fails : Z -> Z -> bool)
           (N nstencil : Z) (k : R) (geom : ascii) (atol rtol : R)
  : Py.result (run unit) :=
  if fails N nstencil
  then Py.raise (Py.Raised "integrate_rd" "the integration did not converge")
  else Py.ret {| rmsd_over_atol := [/ (IZR N * IZR N)]; rest := tt |}.

Definition dot (xs ys : Np.vector) : R :=
  Np.sum (map (fun q => fst q * snd q) (combine xs ys)).

Definition polyfit1 (xs ys : Np.vector) : Py.result (R * R) :=
  if (Nat.eqb (length xs) (length ys) && negb (Nat.eqb (length xs) 0))%bool
  then
    let n := INR (length xs) in
    let slope := (n * dot xs ys - Np.sum xs * Np.sum ys)
                 / (n * dot xs xs - Np.sum xs * Np.sum xs) in
    Py.ret (slope, (Np.sum ys - slope * Np.sum xs) / n)
  else Py.raise (Py.TypeError "expected non-empty vectors of the same length").

Definition collaborators_on (numpy : Np.float_bounds)
           (fails : Z -> Z -> bool)
  : AnalyticNScaling.collaborators := {|
  aux := unit;
  AnalyticNScaling.float := float;
  AnalyticNScaling.integrate_rd := integrate_rd fails;
  float_bounds := numpy;
  AnalyticNScaling.polyfit1 := polyfit1;
  figure := Py.ret tt;
  draw := fun _ => Py.ret tt;
  save_and_or_show_plot := fun _ => Py.ret tt
|}.

Definition collaborators (fails : Z -> Z -> bool)
  : AnalyticNScaling.collaborators :=
  collaborators_on Np.Truncated fails.

(** A solver that never fails, and one that fails for 16 cells with the
    five-point stencil. *)
Definition sound : Z -> Z -> bool := fun _ _ => false.
Definition failing : Z -> Z -> bool :=
  fun N nstencil => ((N =? 16) && (nstencil =? 5))%Z%bool.

End SweepReference.

(** *** The error series and the fit *)

Section AnalyseFacts.

Import AnalyticNScaling.
Local Open Scope R_scope.

Lemma average_rows_inv (m : Np.matrix) (err : Np.vector) :
  average_rows m = inr err -> err = map Np.average m.
Proof.
  unfold average_rows. destruct m as [| r rs].
  - intros H. injection H as <-. reflexivity.
  - destruct (forallb _ rs); intros H; [| discriminate H].
    injection H as <-. reflexivity.
Qed.

Lemma slice_to_map (A B : Type) (f : A -> B) (stop : Z) (l : list A) :
  Py.slice_to stop (map f l) = map f (Py.slice_to stop l).
Proof.
  unfold Py.slice_to. rewrite length_map.
  destruct (0 <=? stop)%Z; apply firstn_map.
Qed.

Lemma slice_to_leading (A : Type) (stop : Z) (l : list A) :
  (0 <= stop)%Z -> Py.slice_to stop l = firstn (Z.to_nat stop) l.
Proof.
  intros H. unfold Py.slice_to.
  destruct (Z.leb_spec 0 stop) as [_ | Hneg]; [reflexivity | lia].
Qed.

Lemma log_ints_inv (Ns : list Z) (logs : Np.vector) :
  Np.log_ints Ns = inr logs ->
  forallb Np.fits_64_bits Ns = true
  /\ logs = map (fun N => ln (IZR N)) Ns.
Proof.
  unfold Np.log_ints. destruct (forallb Np.fits_64_bits Ns); [| discriminate].
  intros H. injection H as <-. split; reflexivity.
Qed.

Lemma log_ints_returns (Ns : list Z) :
  Forall (fun N => (- 2 ^ 63 <= N < 2 ^ 64)%Z) Ns ->
  Np.log_ints Ns = inr (map (fun N => ln (IZR N)) Ns).
Proof.
  intros H. unfold Np.log_ints.
  replace (forallb Np.fits_64_bits Ns) with true; [reflexivity |].
  symmetry. apply forallb_forall. intros N HN.
  rewrite Forall_forall in H. specialize (H N HN).
  unfold Np.fits_64_bits. apply andb_true_iff.
  split; [apply Z.leb_le | apply Z.ltb_lt]; lia.
Qed.

Lemma slice_bound_inv (numpy : Np.float_bounds) (r : R) (stop : Z) :
  Np.slice_bound numpy r = inr stop ->
  numpy = Np.Truncated /\ stop = PyFloat.trunc r.
Proof.
  destruct numpy; simpl; [| discriminate].
  intros H. injection H as <-. split; reflexivity.
Qed.

Variable co : collaborators.

Lemma analyse_err (plot : bool) (nNs : Z) (Ns : list Z) (nfit : Np.vector)
      (gi : Z) (geom : geometry) (ri : Z) (rate : R) (si nstencil : Z)
      (runs : list (run (aux co))) (err : Np.vector) (pn : option panel) :
  analyse co plot nNs Ns nfit gi geom ri rate si nstencil runs = inr (err, pn) ->
  err = map (fun r => Np.average (rmsd_over_atol r)) runs.
Proof.
  unfold analyse, Py.bind.
  destruct (average_rows (map (@rmsd_over_atol _) runs)) as [e | err'] eqn:E;
    [discriminate |].
  apply average_rows_inv in E. rewrite map_map in E. subst err'.
  destruct (Np.log_ints Ns) as [e | logNs]; [discriminate |].
  destruct plot.
  - destruct (NpArray.item nfit (Z.to_nat si)); [discriminate |].
    destruct (Np.slice_bound (float_bounds co) r); [discriminate |].
    destruct (polyfit1 co _ _); [discriminate |].
    intros H. injection H as <- _. reflexivity.
  - intros H. injection H as <- _. reflexivity.
Qed.

(** What an analysis that made a fit went through. *)
Lemma analyse_fit (nNs : Z) (Ns : list Z) (nfit : Np.vector)
      (gi : Z) (geom : geometry) (ri : Z) (rate : R) (si nstencil : Z)
      (runs : list (run (aux co))) (err : Np.vector) (pn : panel) :
  analyse co true nNs Ns nfit gi geom ri rate si nstencil runs
  = inr (err, Some pn) ->
  exists nf,
    nth_error nfit (Z.to_nat si) = Some nf
    /\ float_bounds co = Np.Truncated
    /\ polyfit1 co
         (map (fun N => ln (IZR N)) (Py.slice_to (PyFloat.trunc nf) Ns))
         (map (fun r => ln (Np.average (rmsd_over_atol r)))
              (Py.slice_to (PyFloat.trunc nf) runs))
       = inr (p pn)
    /\ label pn = (nstencil, PyFloat.round (- fst (p pn)) 1)
    /\ points pn = (Ns, err)
    /\ fit_line pn
       = (Py.slice_to (nNs - si) Ns,
          map (fun N => exp (fst (p pn) * ln (IZR N) + snd (p pn)))
              (Py.slice_to (nNs - si) Ns))
    /\ axes pn = (gi * 2 + ri + 1)%Z
    /\ marker pn = String.get (Z.to_nat si) "osd"
    /\ color pn = String.get (Z.to_nat si) "rbk".
Proof.
  intros H. pose proof (analyse_err _ _ _ _ _ _ _ _ _ _ _ H) as Herr.
  unfold analyse, Py.bind in H.
  destruct (average_rows (map (@rmsd_over_atol _) runs)) as [e | err'] eqn:E;
    [discriminate |].
  apply average_rows_inv in E. rewrite map_map in E. subst err'.
  destruct (Np.log_ints Ns) as [e | logNs] eqn:Hlog; [discriminate |].
  apply log_ints_inv in Hlog as [_ ->].
  unfold NpArray.item in H.
  destruct (nth_error nfit (Z.to_nat si)) as [nf |] eqn:Hnf; [| discriminate H].
  cbn [Py.ret] in H.
  destruct (Np.slice_bound (float_bounds co) nf) as [e | stop] eqn:Hstop;
    [discriminate H |].
  apply slice_bound_inv in Hstop as [Hnumpy ->].
  rewrite !slice_to_map, map_map in H.
  destruct (polyfit1 co _ _) as [e | fit] eqn:Hfit; [discriminate H |].
  injection H as <- <-. cbn [p label points fit_line axes marker color].
  exists nf. repeat (split; [assumption || reflexivity |]).
  split; [| repeat split].
  unfold polyval1. rewrite !map_map. reflexivity.
Qed.

End AnalyseFacts.

(** *** Runs of the sweep with the reference collaborators *)

Section ReferenceSweeps.

Import AnalyticNScaling.
Local Open Scope R_scope.

Lemma reference_nfit :
  Py.mapM SweepReference.float (PyText.split "," "7,5,4") = inr [7; 5; 4].
Proof. reflexivity. Qed.

Lemma reference_rates :
  Py.mapM SweepReference.float (PyText.split "," "0") = inr [0].
Proof. reflexivity. Qed.

(** The first triple of the sweep, and the second, at which the failing
    solver gives up. *)
Definition first_triple : (Z * geometry) * (Z * R) * (Z * Z) :=
  ((0%Z, FLAT), (0%Z, 0), (0%Z, 3%Z)).

Definition second_triple : (Z * geometry) * (Z * R) * (Z * Z) :=
  ((0%Z, FLAT), (0%Z, 0), (1%Z, 5%Z)).

Lemma reference_first_triple_runs :
  Eff.for_each
    (visit (SweepReference.collaborators SweepReference.failing)
       false 2 [8; 16]%Z [7; 5; 4])
    [first_triple] []
  = (inr tt, calls 3 0 FLAT [8; 16]%Z).
Proof. reflexivity. Qed.

Lemma reference_sweep_order :
  sweep_order [0]
  = [first_triple] ++ second_triple :: skipn 2 (sweep_order [0]).
Proof. reflexivity. Qed.

End ReferenceSweeps.

(** C3 (as amended). [main] has no handler around the solver: when
    [integrate_rd] raises at a resolution [N] of a triple that the sweep
    reaches, after returning for the resolutions before [N], the exception
    leaves [main].  The record of the run ends with the call that failed:
    no error series, fit or panel is made for that triple, no later
    resolution and no later triple is tried, and nothing is shown. *)
Theorem sweep_stops_at_solver_failure
  (co : AnalyticNScaling.collaborators)
  (plot : bool) (savefig : string) (nNs : Z) (Ns_arg : option string)
  (rates_arg nfit_arg : string)
  (nfit rates : Np.vector) (done : list Z) (N : Z) (rest : list Z) (n : Z)
  (before after : list ((Z * AnalyticNScaling.geometry) * (Z * R) * (Z * Z)))
  (g : Z * AnalyticNScaling.geometry) (r : Z * R) (s : Z * Z)
  (e : Py.exn) (log0 log1 : list AnalyticNScaling.event) :
  Py.mapM (AnalyticNScaling.float co) (PyText.split "," nfit_arg) = inr nfit ->
  AnalyticNScaling.resolution_ladder nNs Ns_arg = inr (done ++ N :: rest, n) ->
  (if plot then AnalyticNScaling.figure co else inr tt) = inr tt ->
  Py.mapM (AnalyticNScaling.float co) (PyText.split "," rates_arg) = inr rates ->
  AnalyticNScaling.sweep_order rates = before ++ (g, r, s) :: after ->
  Eff.for_each
    (AnalyticNScaling.visit co plot n (done ++ N :: rest) nfit) before log0
  = (inr tt, log1) ->
  (forall M, In M done ->
     exists x,
       AnalyticNScaling.integrate_rd co M (snd s) (snd r)
         (AnalyticNScaling.geom_char (snd g))
         AnalyticNScaling.atol AnalyticNScaling.rtol = inr x) ->
  AnalyticNScaling.integrate_rd co N (snd s) (snd r)
    (AnalyticNScaling.geom_char (snd g))
    AnalyticNScaling.atol AnalyticNScaling.rtol = inl e ->
  AnalyticNScaling.main co plot savefig nNs Ns_arg rates_arg nfit_arg log0
  = (inl e, log1 ++ calls (snd s) (snd r) (snd g) (done ++ [N])).
Proof.
  intros Hnfit Hladder Hfig Hrates Horder Hbefore Hdone HN.
  rewrite main_run
    with (nfit := nfit) (rates := rates) (Ns := done ++ N :: rest) (n := n)
    by assumption.
  apply bind_raises. rewrite Horder.
  apply for_each_stops with (s1 := log1); [exact Hbefore |].
  unfold AnalyticNScaling.visit. apply triple_stops; assumption.
Qed.

Lemma sweep_stops_at_solver_failure_witness :
  AnalyticNScaling.main (SweepReference.collaborators SweepReference.failing)
    false "None" 2 None "0" "7,5,4" []
  = (inl (Py.Raised "integrate_rd" "the integration did not converge"),
     calls 3 0 AnalyticNScaling.FLAT [8; 16]%Z
     ++ calls 5 0 AnalyticNScaling.FLAT ([8] ++ [16])%Z).
Proof.
  apply (@sweep_stops_at_solver_failure
           (SweepReference.collaborators SweepReference.failing)
           false "None" 2 None "0" "7,5,4" [7; 5; 4]%R [0]%R
           [8]%Z 16%Z [] 2%Z
           [first_triple] (skipn 2 (AnalyticNScaling.sweep_order [0]%R))
           (0%Z, AnalyticNScaling.FLAT) (0%Z, 0%R) (1%Z, 5%Z)
           (Py.Raised "integrate_rd" "the integration did not converge")
           [] (calls 3 0 AnalyticNScaling.FLAT [8; 16]%Z)).
  - exact reference_nfit.
  - reflexivity.
  - reflexivity.
  - exact reference_rates.
  - exact reference_sweep_order.
  - exact reference_first_triple_runs.
  - intros M [<- | []]. eexists. reflexivity.
  - reflexivity.
Defined.

(** C3 as stated fails: with a solver that does not converge for 16
    cells and the five-point stencil, a sweep over the resolutions 8 and
    16 (three geometries, one rate, three stencils: 18 points) ends with
    the solver's exception after four calls, instead of going on to the
    14 points that remain. *)
Lemma failed_point_aborts_the_sweep :
  AnalyticNScaling.main (SweepReference.collaborators SweepReference.failing)
    false "None" 2 None "0" "7,5,4" []
  = (inl (Py.Raised "integrate_rd" "the integration did not converge"),
     [AnalyticNScaling.Integrated 8 3 0 "f";
      AnalyticNScaling.Integrated 16 3 0 "f";
      AnalyticNScaling.Integrated 8 5 0 "f";
      AnalyticNScaling.Integrated 16 5 0 "f"])
  /\ (length (AnalyticNScaling.sweep_order [0%R]) * 2 = 18)%nat.
Proof.
  split; [| reflexivity].
  rewrite main_run
    with (nfit := [7; 5; 4]%R) (rates := [0]%R) (Ns := [8; 16]%Z) (n := 2%Z)
    by first [exact reference_nfit | exact reference_rates | reflexivity].
  apply bind_raises. rewrite reference_sweep_order.
  apply for_each_stops with (s1 := calls 3 0 AnalyticNScaling.FLAT [8; 16]%Z);
    [exact reference_first_triple_runs |].
  reflexivity.
Qed.

(** C4 (as amended). A fit is made only with [plot] set, and only on a
    numpy that reads the float [nfit[si]] as a slice bound (the releases
    before 1.12, which truncate it to an int [k]).  The degree-one
    polynomial is then fitted to [log(N)] against [log(error)] over the
    slices [[:k]] of the ladder and of the errors: for [0 <= k <= len(Ns)]
    exactly the first [k] resolutions and their errors, and no later
    point.  The number the legend reports for the stencil is the negated
    slope rounded to one decimal, [round(-p[0], 1)], which differs from
    the negated slope by less than 0.1.  (Stated for positive
    resolutions and errors, whose logarithms are numbers.) *)
Theorem fit_uses_leading_points
  (co : AnalyticNScaling.collaborators)
  (nNs : Z) (Ns : list Z) (nfit : Np.vector)
  (gi : Z) (geom : AnalyticNScaling.geometry) (ri : Z) (rate : R)
  (si nstencil : Z)
  (runs : list (AnalyticNScaling.run (AnalyticNScaling.aux co)))
  (err : Np.vector) (pn : AnalyticNScaling.panel) :
  AnalyticNScaling.analyse co true nNs Ns nfit gi geom ri rate si nstencil runs
  = inr (err, Some pn) ->
  (0 <= si)%Z ->
  Forall (fun N => (0 < N)%Z) Ns ->
  Forall (fun e => (0 < e)%R) err ->
  exists nf,
    nth_error nfit (Z.to_nat si) = Some nf
    /\ AnalyticNScaling.float_bounds co = Np.Truncated
    /\ AnalyticNScaling.polyfit1 co
         (map (fun N => ln (IZR N)) (Py.slice_to (PyFloat.trunc nf) Ns))
         (map ln (Py.slice_to (PyFloat.trunc nf) err))
       = inr (AnalyticNScaling.p pn)
    /\ ((0 <= PyFloat.trunc nf <= Z.of_nat (length Ns))%Z ->
        Py.slice_to (PyFloat.trunc nf) Ns
        = firstn (Z.to_nat (PyFloat.trunc nf)) Ns
        /\ Py.slice_to (PyFloat.trunc nf) err
           = firstn (Z.to_nat (PyFloat.trunc nf)) err
        /\ length (Py.slice_to (PyFloat.trunc nf) Ns)
           = Z.to_nat (PyFloat.trunc nf))
    /\ AnalyticNScaling.label pn
       = (nstencil, PyFloat.round (- fst (AnalyticNScaling.p pn)) 1)
    /\ (Rabs (snd (AnalyticNScaling.label pn)
              - - fst (AnalyticNScaling.p pn)) < / 10)%R.
Proof.
  intros H _ _ _.
  assert (Herr := H). apply analyse_err in Herr.
  apply analyse_fit in H
    as (nf & Hnf & Hnumpy & Hfit & Hlabel & _).
  exists nf. repeat (split; [assumption |]).
  split.
  { rewrite Herr, slice_to_map, map_map. exact Hfit. }
  split.
  { intros [Hpos Hlen].
    rewrite !slice_to_leading by exact Hpos.
    repeat split. rewrite firstn_length_le by lia. reflexivity. }
  split; [exact Hlabel |].
  rewrite Hlabel. cbn [snd].
  pose proof (round_close (- fst (AnalyticNScaling.p pn)) 1) as Hclose.
  simpl in Hclose. apply Rle_lt_trans with (1 := Hclose). lra.
Qed.

(** The reference errors of three resolutions. *)
Definition reference_runs (Ns : list Z)
  : list (AnalyticNScaling.run unit) :=
  map (fun N => {| AnalyticNScaling.rmsd_over_atol := [/ (IZR N * IZR N)]%R;
                   AnalyticNScaling.rest := tt |}) Ns.

Lemma reference_analysis_runs :
  exists err pn,
    AnalyticNScaling.analyse (SweepReference.collaborators SweepReference.sound)
      true 3 [8; 16; 32]%Z [2; 2; 2]%R 0 AnalyticNScaling.FLAT 0 0%R 0 3
      (reference_runs [8; 16; 32]%Z)
    = inr (err, Some pn).
Proof.
  unfold AnalyticNScaling.analyse. simpl. rewrite (trunc_IZR 2). simpl.
  eexists. eexists. reflexivity.
Qed.

Lemma reference_errors_positive (Ns : list Z) :
  Forall (fun N => (0 < N)%Z) Ns ->
  Forall (fun e => (0 < e)%R)
         (map (fun r => Np.average (AnalyticNScaling.rmsd_over_atol r))
              (reference_runs Ns)).
Proof.
  intros H. unfold reference_runs. rewrite map_map. apply Forall_map.
  eapply Forall_impl; [| exact H].
  intros N HN. cbn [AnalyticNScaling.rmsd_over_atol].
  unfold Np.average, Np.sum. cbn [fold_right length INR].
  apply IZR_lt in HN.
  assert (0 < / (IZR N * IZR N))%R by (apply Rinv_0_lt_compat; nra).
  lra.
Qed.

(** Three resolutions with their reference errors, fitted over the
    first two. *)
Lemma fit_uses_leading_points_witness :
  exists err pn,
    AnalyticNScaling.analyse (SweepReference.collaborators SweepReference.sound)
      true 3 [8; 16; 32]%Z [2; 2; 2]%R 0 AnalyticNScaling.FLAT 0 0%R 0 3
      (reference_runs [8; 16; 32]%Z)
    = inr (err, Some pn)
    /\ SweepReference.polyfit1
         [ln 8; ln 16]%R (map ln (firstn 2 err))
       = inr (AnalyticNScaling.p pn)
    /\ length (firstn 2 [8; 16; 32]%Z) = 2%nat
    /\ snd (AnalyticNScaling.label pn)
       = PyFloat.round (- fst (AnalyticNScaling.p pn)) 1.
Proof.
  destruct reference_analysis_runs as (err & pn & Hrun). exists err, pn.
  split; [exact Hrun |].
  destruct (@fit_uses_leading_points _ _ _ _ _ _ _ _ _ _ _ _ _ Hrun)
    as (nf & Hnf & _ & Hfit & Hcount & Hlabel & _).
  - lia.
  - repeat constructor.
  - assert (Herr := Hrun). apply analyse_err in Herr. rewrite Herr.
    apply reference_errors_positive. repeat constructor.
  - simpl in Hnf. injection Hnf as <-.
    rewrite (trunc_IZR 2) in Hfit, Hcount.
    destruct Hcount as (_ & Herr & Hlen); [simpl; lia |].
    rewrite Herr in Hfit.
    split; [exact Hfit |]. split; [reflexivity |].
    rewrite Hlabel. reflexivity.
Defined.

(** Reading the slope of a line through two points. *)
Lemma polyfit1_two_points (x1 x2 y1 y2 : R) :
  x1 <> x2 ->
  SweepReference.polyfit1 [x1; x2] [y1; y2]
  = inr ((y2 - y1) / (x2 - x1), (y1 * x2 - y2 * x1) / (x2 - x1))%R.
Proof.
  intros Hx. unfold SweepReference.polyfit1, SweepReference.dot, Np.sum.
  cbn [length Nat.eqb andb negb combine map fold_right fst snd INR].
  unfold Py.ret. f_equal. f_equal.
  - field. split; [lra |]. intros H. apply Hx. nra.
  - field. split; [lra |]. intros H. apply Hx. nra.
Qed.

Lemma rint_five_quarters : PyFloat.rint (5 / 4) = 1%Z.
Proof.
  unfold PyFloat.rint.
  assert (Hi : Int_part (5 / 4) = 1%Z) by (symmetry; apply Int_part_spec; lra).
  assert (Hf : frac_part (5 / 4) = (1 / 4)%R)
    by (unfold frac_part; rewrite Hi; lra).
  rewrite Hf, Hi.
  destruct (Rlt_dec (1 / 4) (1 / 2)) as [_ | Hge]; [reflexivity | lra].
Qed.

(** C4 as stated fails twice over.  On a numpy from 1.12 on, the sweep
    with its default arguments and [plot] set integrates the seven
    resolutions of the first triple and then raises [TypeError] at the
    slice [logNs[:nfit[si]]], whose bound is the float 7.0: no regression
    is made at all.  And where a regression is made, the legend does not
    report the negated slope itself: for the errors 1 and 2^(-1/8) at
    the resolutions 8 and 16 the slope is -1/8 and the legend shows
    0.1. *)
Lemma fit_is_refused_or_rounded :
  AnalyticNScaling.main
    (SweepReference.collaborators_on Np.Refused SweepReference.sound)
    true "None" 7 None "0,0.1" "7,5,4" []
  = (inl (Py.TypeError "slice indices must be integers or None or have an __index__ method"),
     map (fun N => AnalyticNScaling.Integrated N 3 0 "f")
         [8; 16; 32; 64; 128; 256; 512]%Z)
  /\ exists err pn,
       AnalyticNScaling.analyse
         (SweepReference.collaborators SweepReference.sound)
         true 2 [8; 16]%Z [2; 2; 2]%R 0 AnalyticNScaling.FLAT 0 0%R 0 3
         [ {| AnalyticNScaling.rmsd_over_atol := [1%R];
              AnalyticNScaling.rest := tt |};
           {| AnalyticNScaling.rmsd_over_atol := [exp (- ln 2 / 8)];
              AnalyticNScaling.rest := tt |} ]
       = inr (err, Some pn)
       /\ (- fst (AnalyticNScaling.p pn) = 1 / 8)%R
       /\ snd (AnalyticNScaling.label pn) = (1 / 10)%R
       /\ (1 / 10 < 1 / 8)%R.
Proof.
  split; [reflexivity |].
  assert (Hln2 : (0 < ln 2)%R) by (pose proof ln_lt_2; lra).
  assert (H16 : ln 16 = (ln 8 + ln 2)%R).
  { replace 16%R with (8 * 2)%R by lra. apply ln_mult; lra. }
  assert (Hfit :
    SweepReference.polyfit1 [ln 8; ln 16]%R [0; - ln 2 / 8]%R
    = inr (- (1 / 8), (0 * ln 16 - - ln 2 / 8 * ln 8) / (ln 16 - ln 8))%R).
  { rewrite polyfit1_two_points by lra. f_equal. f_equal.
    rewrite H16. field. lra. }
  assert (Have : forall v : R, Np.average [v] = v).
  { intros v. unfold Np.average, Np.sum. cbn [fold_right length INR]. lra. }
  unfold AnalyticNScaling.analyse.
  cbn -[SweepReference.polyfit1 PyFloat.trunc PyFloat.round Np.average
        ln exp Rdiv Rmult Rplus Ropp IZR].
  rewrite (trunc_IZR 2).
  cbn -[SweepReference.polyfit1 PyFloat.round Np.average
        ln exp Rdiv Rmult Rplus Ropp IZR].
  change (Pos.to_nat 2) with 2%nat. cbn [firstn].
  rewrite !Have, ln_1, ln_exp, Hfit.
  cbn -[PyFloat.round ln exp Rdiv Rmult Rplus Ropp IZR].
  eexists. eexists. split; [reflexivity |].
  cbn [AnalyticNScaling.p AnalyticNScaling.label fst snd].
  split; [lra |]. split; [| lra].
  unfold PyFloat.round.
  replace (- - (1 / 8) * 10 ^ 1)%R with (5 / 4)%R by (simpl; lra).
  rewrite rint_five_quarters. simpl. lra.
Qed.

(** C5. For a completed integration with a non-zero [atol], over output
    times whose products [D*t] are in the range of the normal doubles
    (where the reference field holds the values of the closed form), the
    per-time error series is the collaborator's spatially averaged RMSD
    between species 1 of the solver's output and the analytic reference
    field, divided by [atol], entry by entry, and the scalar is the
    arithmetic mean of that series over the output times: the sum of its
    entries divided by their number.  The run holds both, and returns the
    scalar as its fifth value.  In the sweep, the error of a resolution
    is the arithmetic mean over time of the series returned for it. *)
Theorem error_metric_is_rmsd_over_atol
  (co : Chemreac.collaborators) (a : IntegrateRd.args)
  (g g' : Chemreac.rng co) (f : IntegrateRd.frame co) :
  IntegrateRd.integrate_rd_frame co a g = (inr f, g') ->
  IntegrateRd.atol a <> 0%R ->
  Forall (fun t => PyFloat.normal (IntegrateRd.D a * t))
         (IntegrateRd.tout (IntegrateRd.before f)) ->
  (exists Cout1 rmsd,
      NpArray.species (Chemreac.Cout (IntegrateRd.integr f)) 1 = inr Cout1
      /\ Chemreac.spat_ave_rmsd_vs_time co Cout1
           (ConstSurfConc.analytic
              (Chemreac.xcenters co (IntegrateRd.rd (IntegrateRd.before f)))
              (IntegrateRd.tout (IntegrateRd.before f))
              (IntegrateRd.D a) (IntegrateRd.x0 a) (IntegrateRd.xend a)
              (IntegrateRd.logx a) 1)
         = inr rmsd
      /\ IntegrateRd.spat_ave_rmsd_over_atol f
         = map (fun e => e / IntegrateRd.atol a)%R rmsd
      /\ (IntegrateRd.spat_ave_rmsd_over_atol f <> [] ->
          IntegrateRd.tot_ave_rmsd_over_atol f
          = (fold_right Rplus 0 (IntegrateRd.spat_ave_rmsd_over_atol f)
             / INR (length (IntegrateRd.spat_ave_rmsd_over_atol f)))%R))
  /\ IntegrateRd.integrate_rd co a g
     = (inr (IntegrateRd.tout (IntegrateRd.before f),
             Chemreac.Cout (IntegrateRd.integr f),
             Chemreac.info_of (IntegrateRd.integr f),
             IntegrateRd.rd (IntegrateRd.before f),
             IntegrateRd.tot_ave_rmsd_over_atol f), g')
  /\ (forall (sw : AnalyticNScaling.collaborators) plot nNs Ns nfit
             gi geom ri rate si nstencil runs err pn,
         AnalyticNScaling.analyse sw plot nNs Ns nfit gi geom ri rate
           si nstencil runs = inr (err, pn) ->
         Forall2
           (fun r e =>
              AnalyticNScaling.rmsd_over_atol r <> [] ->
              e = (fold_right Rplus 0 (AnalyticNScaling.rmsd_over_atol r)
                   / INR (length (AnalyticNScaling.rmsd_over_atol r)))%R)
           runs err).
Proof.
  intros H _ _.
  destruct (frame_inv a g H)
    as (_ & Cout1 & rmsd & HCout1 & _ & Hrmsd & Hseries & Htot).
  split; [| split].
  - exists Cout1, rmsd. repeat (split; [assumption |]).
    intros _. exact Htot.
  - unfold IntegrateRd.integrate_rd. erewrite bind_ok by exact H.
    reflexivity.
  - intros sw plot nNs Ns nfit gi geom ri rate si nstencil runs err pn Han.
    apply analyse_err in Han. subst err.
    induction runs as [| r runs IH]; constructor; [| exact IH].
    intros _. reflexivity.
Qed.

Lemma error_metric_is_rmsd_over_atol_witness :
  exists f g' e1 e2,
    IntegrateRd.integrate_rd_frame Reference.collaborators
      (Reference.example 1 2 2 false 42) 0%Z = (inr f, g')
    /\ IntegrateRd.spat_ave_rmsd_over_atol f = [e1; e2]
    /\ IntegrateRd.tot_ave_rmsd_over_atol f = ((e1 + e2) / 2)%R
    /\ IntegrateRd.integrate_rd Reference.collaborators
         (Reference.example 1 2 2 false 42) 0%Z
       = (inr (IntegrateRd.tout (IntegrateRd.before f),
               Chemreac.Cout (IntegrateRd.integr f),
               Chemreac.info_of (IntegrateRd.integr f),
               IntegrateRd.rd (IntegrateRd.before f),
               IntegrateRd.tot_ave_rmsd_over_atol f), g').
Proof.
  destruct reference_frame_series
    as (f & g' & e1 & e2 & Hrun & Hseries & Htimes).
  exists f, g', e1, e2. split; [exact Hrun |]. split; [exact Hseries |].
  destruct (@error_metric_is_rmsd_over_atol
              Reference.collaborators
              (Reference.example 1 2 2 false 42) 0%Z g' f Hrun)
    as ((Cout1 & rmsd & _ & _ & _ & Hmean) & Hreturn & _).
  - simpl. apply Rinv_neq_0_compat. lra.
  - exact Htimes.
  - split; [| exact Hreturn].
    rewrite Hmean by (rewrite Hseries; discriminate).
    rewrite Hseries. simpl. lra.
Defined.

(** * Further properties of the scripts *)

(** ** The analytic reference *)

Section AnalyticLaws.

Local Open Scope R_scope.
Import ConstSurfConc.

(** X1. At the surface the reference holds the surface concentration: for a
    coordinate [x_j = 0] (linear coordinates) and a time whose product
    [D * t_i] the doubles hold as a positive finite number, the entry is
    [c_s] itself.  (A product that is zero, or underflows to zero, gives
    NaN there: 0/0.) *)
Theorem analytic_at_surface
  (x t : Np.vector) (D x0 xend c_s : R) (i j : nat) (ti : R) :
  nth_error t i = Some ti ->
  nth_error x j = Some 0 ->
  PyFloat.positive (D * ti) ->
  Np.entry (analytic x t D x0 xend false c_s) i j = Some c_s.
Proof.
  intros Hi Hj Hpos.
  rewrite (analytic_entry D x0 xend c_s false x t i j Hi Hj).
  unfold profile, position.
  replace (0 / (2 * sqrt (D * ti))) with 0 by (unfold Rdiv; ring).
  rewrite Special.erfc_0. f_equal. ring.
Qed.

Lemma analytic_at_surface_witness :
  Np.entry (analytic [0; 1] [4] 2 0 1 false 3) 0 0 = Some 3.
Proof.
  apply (@analytic_at_surface [0; 1] [4] 2 0 1 3 0%nat 0%nat 4);
    first [reflexivity | apply normal_positive, normal_moderate; simpl; lra].
Defined.

(** X2. Every call reduces to one with unit surface concentration, unit
    diffusion coefficient and linear coordinates: the result is
    proportional to [c_s], depends on [D] and the times only through the
    products [D * t_i], on [logx] only through the exponentiation of the
    coordinates, and not at all on [x0] and [xend]. *)
Theorem analytic_canonical_form
  (x t : Np.vector) (D x0 xend x0' xend' c_s : R) (logx : bool) :
  analytic x t D x0 xend logx c_s
  = map (map (Rmult c_s))
        (analytic (map (position logx) x) (map (Rmult D) t)
                  1 x0' xend' false 1).
Proof.
  rewrite !analytic_rows, !map_map.
  apply map_ext; intros ti. rewrite !map_map.
  apply map_ext; intros xj.
  unfold profile. cbn [position]. rewrite !Rmult_1_l. reflexivity.
Qed.

End AnalyticLaws.

(** ** What the set-up of [integrate_rd] needs and gives *)

Section SetupLaws.

Import Chemreac IntegrateRd.
Local Open Scope R_scope.

Variable co : collaborators.

(** The steps a set-up that returned has gone through. *)
Lemma after_seeding_inv (a : args) (g g' : rng co) (s : setup co) :
  after_seeding co a g = (inr s, g') ->
  exists units cref0,
    Np.linspace (t0 a) (tend a) (nt a) = inr (tout s)
    /\ make_units a = inr units
    /\ generate_grid co (x0 a) (xend a) (N a) (logx a) (random a) g
       = (inr (grid s), g')
    /\ ReactionDiffusion co (make_rd_args a units (grid s)) = inr (rd s)
    /\ NpArray.reshape_column (nt a) (N a) (length (xcenters co (rd s)))
         (ConstSurfConc.analytic (xcenters co (rd s)) (tout s)
            (D a) (x0 a) (xend a) (logx a) 1)
       = inr (Cref s)
    /\ NpArray.item (Cref s) 0 = inr cref0
    /\ NpArray.fill_first_row (factor a) (NpArray.zeros_like cref0)
       = inr (source s).
Proof.
  intros H. unfold after_seeding in H.
  eff_step H as ts Hts.
  eff_step H as units Hunits.
  eff_step H as x Hgrid.
  eff_step H as sys Hsys.
  eff_step H as cref Hcref.
  eff_step H as cref0 Hcref0.
  eff_step H as src Hsrc.
  apply ret_inv in H as [-> ->]. cbn [tout grid rd Cref source].
  exists units, cref0. repeat (split; [assumption |]). exact Hsrc.
Qed.

Lemma make_units_inv (a : args) (units : string -> R) :
  make_units a = inr units -> scaling a <> 0.
Proof.
  unfold make_units. destruct (Req_dec_T (scaling a) 0) as [E | E].
  - discriminate.
  - intros _. exact E.
Qed.

Lemma linspace_last (start stop : R) (num : Z) (ts : Np.vector) :
  Np.linspace start stop num = inr ts ->
  (2 <= num)%Z ->
  nth_error ts (Z.to_nat num - 1) = Some stop.
Proof.
  unfold Np.linspace. destruct (num <? 0)%Z; [discriminate |].
  intros H Hnum. injection H as <-.
  rewrite nth_error_map, nth_error_seq.
  destruct (Nat.ltb_spec (Z.to_nat num - 1) (Z.to_nat num)) as [_ | Hge];
    [| lia].
  cbn [option_map Nat.add].
  destruct (Nat.ltb_spec 1 (Z.to_nat num)) as [_ | Hle]; [| lia].
  rewrite Nat.eqb_refl. reflexivity.
Qed.

(** X3. A set-up that returns had a non-zero initial time, a non-zero
    scaling, at least one output time and at least one cell, and its
    number of cells [N] is the number of cell centres of the system
    (or -1, which numpy reads as "as many as there are"). *)
Theorem setup_needs
  (a : args) (g g' : rng co) (s : setup co) :
  prepare co a g = (inr s, g') ->
  t0 a <> 0
  /\ scaling a <> 0
  /\ (1 <= nt a)%Z
  /\ xcenters co (rd s) <> []
  /\ (N a = Z.of_nat (length (xcenters co (rd s))) \/ N a = (-1)%Z).
Proof.
  intros H.
  destruct (prepare_inv a g H) as (Ht0 & g1 & _ & Hafter).
  destruct (after_seeding_inv a g1 Hafter)
    as (units & cref0 & Hts & Hunits & _ & _ & Hcref & Hcref0 & Hsrc).
  split; [exact Ht0 |].
  split; [exact (make_units_inv a Hunits) |].
  unfold NpArray.reshape_column in Hcref.
  destruct ((((N a =? -1) && (0 <? nt a))
             || ((0 <=? N a)
                 && ((nt a =? 0)
                     || (N a =? Z.of_nat (length (xcenters co (rd s)))))))%Z)%bool
    eqn:Hshape; [| discriminate Hcref].
  injection Hcref as Hcref. rewrite <- Hcref in Hcref0.
  rewrite analytic_rows in Hcref0.
  destruct (tout s) as [| t1 ts] eqn:Htout; [discriminate Hcref0 |].
  apply linspace_length in Hts as [_ Hlen]. cbn [length] in Hlen.
  assert (Hnt : (1 <= nt a)%Z) by lia.
  split; [exact Hnt |].
  cbn [map NpArray.item nth_error] in Hcref0. injection Hcref0 as Hcref0.
  split.
  - intros Hnil. rewrite Hnil in Hcref0. cbn [map] in Hcref0.
    rewrite <- Hcref0 in Hsrc. discriminate Hsrc.
  - destruct (Z.eqb_spec (N a) (-1)) as [E | _]; [right; exact E | left].
    destruct (Z.eqb_spec (nt a) 0) as [E | _]; [lia |].
    cbn [andb orb] in Hshape. apply andb_true_iff in Hshape as [_ Hshape].
    apply Z.eqb_eq, Hshape.
Qed.

(** X4. In a set-up that returns, the output times are [nt] in number, the
    first one is [t0] and, when there are at least two, the last one is
    [tend]; the reference field has one row per output time, and each
    row has one single-entry cell per cell centre. *)
Theorem setup_time_grid_and_reference
  (a : args) (g g' : rng co) (s : setup co) :
  prepare co a g = (inr s, g') ->
  length (tout s) = Z.to_nat (nt a)
  /\ nth_error (tout s) 0 = Some (t0 a)
  /\ ((2 <= nt a)%Z -> nth_error (tout s) (Z.to_nat (nt a) - 1) = Some (tend a))
  /\ length (Cref s) = Z.to_nat (nt a)
  /\ Forall (fun row =>
               length row = length (xcenters co (rd s))
               /\ Forall (fun cell => length cell = 1%nat) row)
            (Cref s).
Proof.
  intros H.
  destruct (prepare_inv a g H) as (_ & g1 & _ & Hafter).
  pose proof (after_seeding_Cref a g1 Hafter) as HC.
  destruct (after_seeding_inv a g1 Hafter)
    as (units & cref0 & Hts & _ & _ & _ & _ & Hcref0 & _).
  pose proof (linspace_length _ _ _ Hts) as [_ Hlen].
  split; [exact Hlen |].
  split.
  { destruct (tout s) as [| t1 ts] eqn:Htout.
    - rewrite HC in Hcref0. discriminate Hcref0.
    - rewrite (linspace_head _ _ _ Hts). reflexivity. }
  split; [intros Hnt; eapply linspace_last; eassumption |].
  split.
  { rewrite HC, length_map, analytic_length. exact Hlen. }
  rewrite HC. apply Forall_forall. intros row Hrow.
  apply in_map_iff in Hrow as (r & <- & Hr).
  split.
  - rewrite length_map.
    pose proof (analytic_row_length (D a) (x0 a) (xend a) 1 (logx a)
                  (xcenters co (rd s)) (tout s)) as Hall.
    rewrite Forall_forall in Hall. apply Hall, Hr.
  - apply Forall_forall. intros cell Hcell.
    apply in_map_iff in Hcell as (v & <- & _). reflexivity.
Qed.

End SetupLaws.

Lemma setup_needs_witness :
  exists s g',
    IntegrateRd.prepare Reference.collaborators
      (Reference.example 1 2 2 false 42) 0%Z
    = (inr s, g')
    /\ (1 <= IntegrateRd.nt (Reference.example 1 2 2 false 42))%Z.
Proof.
  destruct reference_prepare_runs as (s & g' & Hrun).
  exists s, g'. split; [exact Hrun |].
  exact (proj1 (proj2 (proj2
           (@setup_needs Reference.collaborators _ 0%Z g' s Hrun)))).
Defined.

Lemma setup_time_grid_and_reference_witness :
  exists s g',
    IntegrateRd.prepare Reference.collaborators
      (Reference.example 1 2 2 false 42) 0%Z
    = (inr s, g')
    /\ nth_error (IntegrateRd.tout s) 0 = Some 1%R.
Proof.
  destruct reference_prepare_runs as (s & g' & Hrun).
  exists s, g'. split; [exact Hrun |].
  exact (proj1 (proj2
           (@setup_time_grid_and_reference
              Reference.collaborators _ 0%Z g' s Hrun))).
Defined.

(** *** When the set-up returns *)

Section SetupReturns.

Import Chemreac IntegrateRd.
Local Open Scope R_scope.

Variable co : collaborators.

(** X5. The set-up returns as soon as its inputs are sound and its
    collaborators answer: a non-zero initial time and scaling, at least
    one output time, a seeding that returns, a grid, and a system with as
    many cell centres as the [N >= 1] cells asked for.  The state of the
    generator is then the one the grid generator left. *)
Theorem setup_returns
  (a : args) (g g1 g2 : rng co) (x : Np.vector) (sys : system co) :
  t0 a <> 0 -> scaling a <> 0 -> (1 <= nt a)%Z -> (1 <= N a)%Z ->
  seeding co a g = (inr tt, g1) ->
  generate_grid co (x0 a) (xend a) (N a) (logx a) (random a) g1
  = (inr x, g2) ->
  ReactionDiffusion co
    (make_rd_args a
       (fun key => if String.eqb key "amount" then 1 / scaling a else 1) x)
  = inr sys ->
  Z.of_nat (length (xcenters co sys)) = N a ->
  exists s, prepare co a g = (inr s, g2) /\ grid s = x /\ rd s = sys.
Proof.
  intros Ht0 Hsc Hnt HN Hseed Hgrid Hsys HL.
  rewrite (prepare_nonzero_t0 co a g Ht0). unfold Eff.bind at 1.
  rewrite Hseed. unfold after_seeding.
  destruct (Np.linspace (t0 a) (tend a) (nt a)) as [e | ts] eqn:Hts.
  { unfold Np.linspace in Hts.
    destruct (Z.ltb_spec (nt a) 0); [lia | discriminate]. }
  assert (Hne : exists t1 ts', ts = t1 :: ts').
  { apply linspace_length in Hts as [_ Hlen].
    destruct ts as [| t1 ts']; [simpl in Hlen; lia | eauto]. }
  destruct Hne as (t1 & ts' & ->).
  assert (Hshape :
    ((((N a =? -1) && (0 <? nt a))
      || ((0 <=? N a)
          && ((nt a =? 0) || (N a =? Z.of_nat (length (xcenters co sys))))))%Z)%bool
    = true).
  { rewrite HL, Z.eqb_refl, orb_true_r, andb_true_r.
    apply orb_true_iff. right. apply Z.leb_le. lia. }
  unfold Eff.bind, Eff.lift. rewrite (make_units_nonzero a Hsc).
  cbn [Py.ret]. rewrite Hgrid, Hsys.
  unfold NpArray.reshape_column. rewrite Hshape.
  rewrite analytic_rows.
  destruct (xcenters co sys) as [| x1 xs] eqn:Hxc; [simpl in HL; lia |].
  cbn. eexists. split; [reflexivity |]. split; reflexivity.
Qed.

End SetupReturns.

Lemma setup_returns_witness :
  exists s,
    IntegrateRd.prepare Reference.collaborators
      (Reference.example 1 2 2 false 42) 0%Z = (inr s, 42%Z)
    /\ IntegrateRd.grid s = Reference.edges 0 1 2 0.
Proof.
  destruct (@setup_returns Reference.collaborators
              (Reference.example 1 2 2 false 42) 0%Z 42%Z 42%Z
              (Reference.edges 0 1 2 0)
              (IntegrateRd.make_rd_args (Reference.example 1 2 2 false 42)
                 (fun key => if String.eqb key "amount" then (1 / 1)%R else 1%R)
                 (Reference.edges 0 1 2 0)))
    as (s & Hrun & Hgrid & _).
  - simpl. lra.
  - simpl. lra.
  - simpl. lia.
  - simpl. lia.
  - reflexivity.
  - reflexivity.
  - reflexivity.
  - reflexivity.
  - exists s. split; assumption.
Defined.

(** ** What the sweep records *)

Section SweepRecord.

Import AnalyticNScaling.
Local Open Scope R_scope.

Variable co : collaborators.

(** The events that are calls of the solver. *)
Definition is_call (e : event) : Prop :=
  match e with
  | Integrated _ _ _ _ => True
  | _ => False
  end.

(** A computation that adds nothing but solver calls to the record. *)
Definition only_calls (A : Type) (m : io A) : Prop :=
  forall log, exists l, snd (m log) = log ++ l /\ Forall is_call l.

Lemma only_calls_ret (A : Type) (a : A) : only_calls (Eff.ret a).
Proof. intros log. exists []. rewrite app_nil_r. split; [reflexivity | constructor]. Qed.

Lemma only_calls_lift (A : Type) (r : Py.result A) : only_calls (Eff.lift r).
Proof. intros log. exists []. rewrite app_nil_r. split; [reflexivity | constructor]. Qed.

Lemma only_calls_bind (A B : Type) (m : io A) (k : A -> io B) :
  only_calls m ->
  (forall a log log', m log = (inr a, log') -> only_calls (k a)) ->
  only_calls (Eff.bind m k).
Proof.
  intros Hm Hk log. destruct (Hm log) as (l1 & E1 & F1).
  unfold Eff.bind. destruct (m log) as [[e | a] log'] eqn:Em; simpl in E1; subst log'.
  - exists l1. split; [reflexivity | exact F1].
  - destruct (Hk a log (log ++ l1) Em (log ++ l1)) as (l2 & E2 & F2).
    exists (l1 ++ l2). rewrite E2, app_assoc. split; [reflexivity |].
    apply Forall_app. split; assumption.
Qed.

Lemma only_calls_for_each (A : Type) (body : A -> io unit) (l : list A) :
  (forall a, only_calls (body a)) -> only_calls (Eff.for_each body l).
Proof.
  intros Hbody. induction l as [| a l IH]; simpl.
  - apply only_calls_ret.
  - apply only_calls_bind; [apply Hbody | intros; exact IH].
Qed.

Lemma only_calls_collect (A B : Type) (f : A -> io B) (l : list A) :
  (forall a, only_calls (f a)) -> only_calls (Eff.collect f l).
Proof.
  intros Hf. induction l as [| a l IH]; simpl.
  - apply only_calls_ret.
  - apply only_calls_bind; [apply Hf |]. intros b _ _ _.
    apply only_calls_bind; [exact IH |]. intros bs _ _ _.
    apply only_calls_ret.
Qed.

Lemma only_calls_call (nstencil : Z) (rate : R) (geom : geometry) (N : Z) :
  only_calls (call_integrate_rd co nstencil rate geom N).
Proof.
  intros log. rewrite call_integrate_rd_run. cbn [snd].
  eexists. split; [reflexivity |]. repeat constructor.
Qed.

(** Without [plot] the analysis draws up no panel. *)
Lemma analyse_without_plot (nNs : Z) (Ns : list Z) (nfit : Np.vector)
      (gi : Z) (geom : geometry) (ri : Z) (rate : R) (si nstencil : Z)
      (runs : list (run (aux co))) (result : Np.vector * option panel) :
  analyse co false nNs Ns nfit gi geom ri rate si nstencil runs = inr result ->
  snd result = None.
Proof.
  unfold analyse, Py.bind.
  destruct (average_rows _) as [e | err]; [discriminate |].
  destruct (Np.log_ints Ns) as [e | logNs]; [discriminate |].
  intros H. injection H as <-. reflexivity.
Qed.

Lemma only_calls_triple (nNs : Z) (Ns : list Z) (nfit : Np.vector)
      (gi : Z) (geom : geometry) (ri : Z) (rate : R) (si nstencil : Z) :
  only_calls (triple co false nNs Ns nfit gi geom ri rate si nstencil).
Proof.
  unfold triple.
  apply only_calls_bind;
    [apply only_calls_collect; intros N; apply only_calls_call |].
  intros runs _ _ _.
  apply only_calls_bind; [apply only_calls_lift |]. intros u _ _ _.
  apply only_calls_bind; [apply only_calls_lift |].
  intros result log log' Hres.
  apply lift_inv in Hres as [Hres _].
  rewrite (analyse_without_plot _ _ _ _ _ _ _ _ _ _ Hres).
  apply only_calls_ret.
Qed.

End SweepRecord.

(** X6. Without [plot], [main] draws and shows nothing, however the run
    ends: what it adds to the record are calls of the solver only. *)
Theorem without_plot_nothing_is_drawn
  (co : AnalyticNScaling.collaborators) (savefig : string) (nNs : Z)
  (Ns : option string) (rates nfit : string)
  (log : list AnalyticNScaling.event) :
  exists l,
    snd (AnalyticNScaling.main co false savefig nNs Ns rates nfit log)
    = log ++ l
    /\ Forall is_call l.
Proof.
  revert log. change (only_calls (AnalyticNScaling.main co false savefig nNs Ns rates nfit)).
  unfold AnalyticNScaling.main.
  apply only_calls_bind; [apply only_calls_lift |]. intros nf _ _ _.
  apply only_calls_bind; [apply only_calls_lift |]. intros ladder _ _ _.
  apply only_calls_bind; [apply only_calls_ret |]. intros u _ _ _.
  apply only_calls_bind; [apply only_calls_lift |]. intros rs _ _ _.
  apply only_calls_bind; [| intros; apply only_calls_ret].
  apply only_calls_for_each. intros g.
  apply only_calls_for_each. intros r.
  apply only_calls_for_each. intros s.
  apply only_calls_triple.
Qed.

(** ** Sweeps that complete, and sweeps that cannot start *)

Section SweepRuns.

Import AnalyticNScaling.
Local Open Scope R_scope.

Variable co : collaborators.

Lemma collect_returns (nstencil : Z) (rate : R) (geom : geometry)
      (Ns : list Z) (runs : list (run (aux co))) (log : list event) :
  Forall2 (fun N r =>
             integrate_rd co N nstencil rate (geom_char geom) atol rtol = inr r)
          Ns runs ->
  Eff.collect (call_integrate_rd co nstencil rate geom) Ns log
  = (inr runs, log ++ calls nstencil rate geom Ns).
Proof.
  intros Hall. revert log.
  induction Hall as [| N r Ns runs HN Hrest IH]; intros log.
  - simpl. unfold Eff.ret. rewrite app_nil_r. reflexivity.
  - cbn [Eff.collect]. unfold Eff.bind at 1.
    rewrite call_integrate_rd_run, HN.
    unfold Eff.bind at 1. rewrite IH. unfold Eff.ret, calls.
    cbn [map app]. rewrite <- app_assoc. reflexivity.
Qed.

Lemma triple_completes
  (plot : bool) (nNs : Z) (Ns : list Z) (nfit : Np.vector)
  (gi : Z) (geom : geometry) (ri : Z) (rate : R) (si nstencil : Z)
  (runs : list (run (aux co))) (err : Np.vector) (drawn : option panel)
  (log : list event) :
  Forall2 (fun N r =>
             integrate_rd co N nstencil rate (geom_char geom) atol rtol = inr r)
          Ns runs ->
  Ns <> [] ->
  analyse co plot nNs Ns nfit gi geom ri rate si nstencil runs
  = inr (err, drawn) ->
  match drawn with Some pn => draw co pn = inr tt | None => True end ->
  triple co plot nNs Ns nfit gi geom ri rate si nstencil log
  = (inr tt,
     log ++ calls nstencil rate geom Ns
         ++ match drawn with Some pn => [Drawn pn] | None => [] end).
Proof.
  intros Hall HNs Han Hdraw. unfold triple.
  erewrite bind_ok by (apply collect_returns; exact Hall).
  assert (Hruns : runs <> []).
  { intros ->. inversion Hall. subst. contradiction. }
  destruct runs as [| r runs']; [contradiction |].
  unfold Eff.bind at 1. unfold Eff.lift at 1. cbn [Py.ret].
  unfold Eff.bind at 1. unfold Eff.lift at 1. rewrite Han. cbn [snd].
  destruct drawn as [pn |].
  - unfold Eff.bind, emit, Eff.lift. rewrite Hdraw, <- app_assoc. reflexivity.
  - unfold Eff.ret. rewrite app_nil_r. reflexivity.
Qed.

Lemma mapM_length (A B : Type) (f : A -> Py.result B) (l : list A)
      (l' : list B) :
  Py.mapM f l = inr l' -> length l' = length l.
Proof.
  revert l'. induction l as [| a l IH]; intros l'; simpl.
  - intros H. injection H as <-. reflexivity.
  - destruct (f a) as [e | b]; [discriminate |].
    destruct (Py.mapM f l) as [e | bs]; [discriminate |].
    intros H. injection H as <-. simpl. f_equal. apply IH. reflexivity.
Qed.

Lemma split_not_empty (sep : ascii) (s : string) : PyText.split sep s <> [].
Proof.
  destruct s as [| c r]; simpl; [discriminate |].
  destruct (Ascii.eqb c sep); [discriminate |].
  destruct (PyText.split sep r); discriminate.
Qed.

(** A list of rates read from an option string has at least one rate. *)
Lemma rates_not_empty (rates_arg : string) (rates : Np.vector) :
  Py.mapM (float co) (PyText.split "," rates_arg) = inr rates -> rates <> [].
Proof.
  intros H Hnil. apply mapM_length in H. rewrite Hnil in H.
  destruct (PyText.split "," rates_arg) eqn:E; [| discriminate H].
  exact (split_not_empty _ _ E).
Qed.

Lemma exists_Forall2 (A B : Type) (P : A -> B -> Prop) (l : list A) :
  (forall a, In a l -> exists b, P a b) -> exists l', Forall2 P l l'.
Proof.
  induction l as [| a l IH]; intros H.
  - exists []. constructor.
  - destruct (H a (or_introl eq_refl)) as (b & Hb).
    destruct IH as (l' & Hl'); [intros a' Ha'; apply H; right; exact Ha' |].
    exists (b :: l'). constructor; assumption.
Qed.

Lemma average_rows_rectangular (m : Np.matrix) (L : nat) :
  Forall (fun r => length r = L) m ->
  average_rows m = inr (map Np.average m).
Proof.
  intros H. unfold average_rows. destruct m as [| r rs]; [reflexivity |].
  inversion H as [| r' rs' Hr Hrs]; subst.
  replace (forallb _ rs) with true; [reflexivity |].
  symmetry. apply forallb_forall. intros r' Hr'.
  rewrite Forall_forall in Hrs. rewrite (Hrs r' Hr'). apply Nat.eqb_refl.
Qed.

(** Without [plot], a triple whose solver calls all return series of one
    length completes, having integrated every resolution in order. *)
Lemma triple_completes_without_plot
      (nNs : Z) (Ns : list Z) (nfit : Np.vector)
      (gi : Z) (geom : geometry) (ri : Z) (rate : R) (si nstencil : Z)
      (L : nat) (log : list event) :
  Ns <> [] ->
  Forall (fun N => (- 2 ^ 63 <= N < 2 ^ 64)%Z) Ns ->
  (forall N, In N Ns ->
     exists r,
       integrate_rd co N nstencil rate (geom_char geom) atol rtol = inr r
       /\ length (rmsd_over_atol r) = L) ->
  triple co false nNs Ns nfit gi geom ri rate si nstencil log
  = (inr tt, log ++ calls nstencil rate geom Ns).
Proof.
  intros HNs Hfits Hall.
  destruct (exists_Forall2 _ Ns Hall) as (runs & Hruns).
  assert (Hcalls :
    Forall2 (fun N r =>
               integrate_rd co N nstencil rate (geom_char geom) atol rtol
               = inr r) Ns runs).
  { eapply Forall2_impl; [| exact Hruns]. intros N r [H _]. exact H. }
  assert (Hlen : Forall (fun r => length r = L) (map (@rmsd_over_atol _) runs)).
  { rewrite Forall_map. clear - Hruns.
    induction Hruns as [| N r Ns' runs' [_ Hr] _ IH]; constructor; assumption. }
  erewrite triple_completes with (drawn := None) (runs := runs);
    [rewrite app_nil_r; reflexivity | exact Hcalls | exact HNs | | exact I].
  unfold analyse, Py.bind.
  erewrite average_rows_rectangular by exact Hlen.
  rewrite (log_ints_returns Hfits). reflexivity.
Qed.

Lemma for_each_returns (A : Type) (body : A -> io unit)
      (f : A -> list event) (l : list A) :
  (forall a, In a l -> forall log, body a log = (inr tt, log ++ f a)) ->
  forall log, Eff.for_each body l log = (inr tt, log ++ flat_map f l).
Proof.
  induction l as [| a l IH]; intros H log; simpl.
  - unfold Eff.ret. rewrite app_nil_r. reflexivity.
  - unfold Eff.bind. rewrite (H a (or_introl eq_refl)).
    rewrite IH by (intros a' Ha'; apply H; right; exact Ha').
    rewrite app_assoc. reflexivity.
Qed.

Lemma flat_map_length (A B : Type) (f : A -> list B) (k : nat) (l : list A) :
  (forall a, length (f a) = k) -> length (flat_map f l) = (k * length l)%nat.
Proof.
  intros H. induction l as [| a l IH]; simpl; [lia |].
  rewrite length_app, H, IH. lia.
Qed.

Lemma enumerate_length (A : Type) (l : list A) :
  length (Eff.enumerate l) = length l.
Proof.
  unfold Eff.enumerate. rewrite length_combine, length_map, length_seq. lia.
Qed.

Lemma sweep_order_length (rates : Np.vector) :
  length (sweep_order rates) = (9 * length rates)%nat.
Proof.
  unfold sweep_order.
  rewrite flat_map_length with (k := (3 * length rates)%nat).
  - simpl. lia.
  - intros g. rewrite flat_map_length with (k := 3%nat).
    + rewrite enumerate_length. reflexivity.
    + intros r. reflexivity.
Qed.

(** The solver calls of one triple of the sweep. *)
Definition triple_calls (Ns : list Z)
           (t : (Z * geometry) * (Z * R) * (Z * Z)) : list event :=
  calls (snd (snd t)) (snd (snd (fst t))) (snd (fst (fst t))) Ns.

End SweepRuns.

(** X7. A sweep with no resolution fails before the solver is called:
    with [nNs <= 0] and no explicit list the ladder is empty, and the
    first triple raises the [ValueError] of unpacking no results. *)
Theorem empty_ladder_is_refused
  (co : AnalyticNScaling.collaborators) (plot : bool) (savefig : string)
  (nNs : Z) (rates_arg nfit_arg : string) (nfit rates : Np.vector)
  (log : list AnalyticNScaling.event) :
  (nNs <= 0)%Z ->
  Py.mapM (AnalyticNScaling.float co) (PyText.split "," nfit_arg) = inr nfit ->
  (if plot then AnalyticNScaling.figure co else inr tt) = inr tt ->
  Py.mapM (AnalyticNScaling.float co) (PyText.split "," rates_arg) = inr rates ->
  AnalyticNScaling.main co plot savefig nNs None rates_arg nfit_arg log
  = (inl (Py.ValueError "not enough values to unpack"), log).
Proof.
  intros HnNs Hnfit Hfig Hrates.
  assert (Hladder : AnalyticNScaling.resolution_ladder nNs None = inr ([], nNs)).
  { unfold AnalyticNScaling.resolution_ladder, Py.range.
    replace (Z.to_nat nNs) with 0%nat by lia. reflexivity. }
  rewrite main_run with (nfit := nfit) (rates := rates) (Ns := []) (n := nNs)
    by assumption.
  apply bind_raises.
  pose proof (rates_not_empty co rates_arg Hrates) as Hne.
  destruct rates as [| r0 rs]; [contradiction |].
  reflexivity.
Qed.

Lemma empty_ladder_is_refused_witness :
  AnalyticNScaling.main (SweepReference.collaborators SweepReference.sound)
    false "None" 0 None "0" "7,5,4" []
  = (inl (Py.ValueError "not enough values to unpack"), []).
Proof.
  apply (@empty_ladder_is_refused
           (SweepReference.collaborators SweepReference.sound)
           false "None" 0%Z "0" "7,5,4" [7; 5; 4]%R [0]%R []).
  - lia.
  - exact reference_nfit.
  - reflexivity.
  - exact reference_rates.
Defined.

(** X8. A malformed option list ends the run before the solver is called
    or anything is drawn: an exception raised while reading [nfit], then
    [Ns], then (once the figure is made) [rates] leaves [main] with the
    record as it was. *)
Theorem malformed_options_abort_at_once
  (co : AnalyticNScaling.collaborators) (plot : bool) (savefig : string)
  (nNs : Z) (Ns_arg : option string) (rates_arg nfit_arg : string)
  (e : Py.exn) (log : list AnalyticNScaling.event) :
  (Py.mapM (AnalyticNScaling.float co) (PyText.split "," nfit_arg) = inl e ->
   AnalyticNScaling.main co plot savefig nNs Ns_arg rates_arg nfit_arg log
   = (inl e, log))
  /\ (forall nfit,
         Py.mapM (AnalyticNScaling.float co) (PyText.split "," nfit_arg)
         = inr nfit ->
         AnalyticNScaling.resolution_ladder nNs Ns_arg = inl e ->
         AnalyticNScaling.main co plot savefig nNs Ns_arg rates_arg nfit_arg log
         = (inl e, log))
  /\ (forall nfit ladder,
         Py.mapM (AnalyticNScaling.float co) (PyText.split "," nfit_arg)
         = inr nfit ->
         AnalyticNScaling.resolution_ladder nNs Ns_arg = inr ladder ->
         (if plot then AnalyticNScaling.figure co else inr tt) = inr tt ->
         Py.mapM (AnalyticNScaling.float co) (PyText.split "," rates_arg)
         = inl e ->
         AnalyticNScaling.main co plot savefig nNs Ns_arg rates_arg nfit_arg log
         = (inl e, log)).
Proof.
  unfold AnalyticNScaling.main. split; [| split].
  - intros H. unfold Eff.bind at 1. unfold Eff.lift at 1. rewrite H.
    reflexivity.
  - intros nfit Hnfit H. unfold Eff.bind at 1. unfold Eff.lift at 1.
    rewrite Hnfit. unfold Eff.bind at 1. unfold Eff.lift at 1. rewrite H.
    reflexivity.
  - intros nfit ladder Hnfit Hladder Hfig H.
    unfold Eff.bind at 1. unfold Eff.lift at 1. rewrite Hnfit.
    unfold Eff.bind at 1. unfold Eff.lift at 1. rewrite Hladder.
    unfold Eff.bind at 1.
    assert (Hwhen : Eff.when plot (Eff.lift (AnalyticNScaling.figure co)) log
                    = (inr tt, log)).
    { unfold Eff.when, Eff.lift, Eff.ret. destruct plot; rewrite ?Hfig; reflexivity. }
    rewrite Hwhen. unfold Eff.bind at 1. unfold Eff.lift at 1. rewrite H.
    reflexivity.
Qed.

Lemma malformed_options_abort_at_once_witness :
  AnalyticNScaling.main (SweepReference.collaborators SweepReference.sound)
    true "None" 7 (Some "8,,16"%string) "0" "7,5,4" []
  = (inl (Py.ValueError "invalid literal for int() with base 10"), []).
Proof.
  apply (proj1 (proj2 (@malformed_options_abort_at_once
                         (SweepReference.collaborators SweepReference.sound)
                         true "None" 7%Z (Some "8,,16"%string) "0" "7,5,4"
                         (Py.ValueError "invalid literal for int() with base 10")
                         [])) [7; 5; 4]%R).
  - exact reference_nfit.
  - reflexivity.
Defined.

(** X9. A triple whose solver calls all return, whose analysis returns
    and whose panel (if any) is drawn has integrated every resolution of
    the ladder, in order, and then drawn that one panel. *)
Theorem completed_triple_record
  (co : AnalyticNScaling.collaborators)
  (plot : bool) (nNs : Z) (Ns : list Z) (nfit : Np.vector)
  (gi : Z) (geom : AnalyticNScaling.geometry) (ri : Z) (rate : R)
  (si nstencil : Z)
  (runs : list (AnalyticNScaling.run (AnalyticNScaling.aux co)))
  (err : Np.vector) (drawn : option AnalyticNScaling.panel)
  (log : list AnalyticNScaling.event) :
  Forall2 (fun N r =>
             AnalyticNScaling.integrate_rd co N nstencil rate
               (AnalyticNScaling.geom_char geom)
               AnalyticNScaling.atol AnalyticNScaling.rtol = inr r)
          Ns runs ->
  Ns <> [] ->
  AnalyticNScaling.analyse co plot nNs Ns nfit gi geom ri rate si nstencil runs
  = inr (err, drawn) ->
  match drawn with
  | Some pn => AnalyticNScaling.draw co pn = inr tt
  | None => True
  end ->
  AnalyticNScaling.triple co plot nNs Ns nfit gi geom ri rate si nstencil log
  = (inr tt,
     log ++ calls nstencil rate geom Ns
         ++ match drawn with
            | Some pn => [AnalyticNScaling.Drawn pn]
            | None => []
            end).
Proof. intros Hall HNs Han Hdraw. eapply triple_completes; eassumption. Qed.

Lemma completed_triple_record_witness :
  AnalyticNScaling.triple (SweepReference.collaborators SweepReference.sound)
    false 2 [8; 16]%Z [7; 5; 4]%R 0 AnalyticNScaling.FLAT 0 0%R 0 3 []
  = (inr tt, [] ++ calls 3 0 AnalyticNScaling.FLAT [8; 16]%Z ++ []).
Proof.
  apply (@completed_triple_record
           (SweepReference.collaborators SweepReference.sound)
           false 2%Z [8; 16]%Z [7; 5; 4]%R 0%Z AnalyticNScaling.FLAT 0%Z 0%R
           0%Z 3%Z
           (map (fun N => {| AnalyticNScaling.rmsd_over_atol :=
                               [/ (IZR N * IZR N)]%R;
                             AnalyticNScaling.rest := tt |})
                [8; 16]%Z)
           (map (fun N => Np.average [/ (IZR N * IZR N)]%R) [8; 16]%Z)
           None []).
  - repeat constructor.
  - discriminate.
  - reflexivity.
  - exact I.
Defined.

(** ** What is drawn *)

Section PanelLaws.

Import AnalyticNScaling.
Local Open Scope R_scope.

Variable co : collaborators.

Lemma in_enumerate_bound (A : Type) (l : list A) (i : Z) (a : A) :
  In (i, a) (Eff.enumerate l) -> (0 <= i < Z.of_nat (length l))%Z.
Proof.
  unfold Eff.enumerate. intros H. apply in_combine_l in H.
  apply in_map_iff in H as (k & <- & Hk). apply in_seq in Hk. lia.
Qed.

Lemma in_sweep_order (rates : Np.vector) (g : Z * geometry) (r : Z * R)
      (s : Z * Z) :
  In (g, r, s) (sweep_order rates) ->
  In g (Eff.enumerate geometries)
  /\ In r (Eff.enumerate rates)
  /\ In s (Eff.enumerate nstencils).
Proof.
  unfold sweep_order. intros H.
  apply in_flat_map in H as (g' & Hg & H).
  apply in_flat_map in H as (r' & Hr & H).
  apply in_map_iff in H as (s' & E & Hs).
  injection E as <- <- <-. repeat split; assumption.
Qed.

(** The panel the analysis draws up, field by field. *)
Lemma analyse_panel (nNs : Z) (Ns : list Z) (nfit : Np.vector)
      (gi : Z) (geom : geometry) (ri : Z) (rate : R) (si nstencil : Z)
      (runs : list (run (aux co))) (err : Np.vector) (pn : panel) :
  analyse co true nNs Ns nfit gi geom ri rate si nstencil runs
  = inr (err, Some pn) ->
  axes pn = (gi * 2 + ri + 1)%Z
  /\ marker pn = String.get (Z.to_nat si) "osd"
  /\ color pn = String.get (Z.to_nat si) "rbk"
  /\ fit_line pn
     = (Py.slice_to (nNs - si) Ns,
        map (fun N => exp (fst (p pn) * ln (IZR N) + snd (p pn)))
            (Py.slice_to (nNs - si) Ns)).
Proof.
  intros H. apply analyse_fit in H
    as (nf & _ & _ & _ & _ & _ & Hline & Haxes & Hmarker & Hcolor).
  repeat split; assumption.
Qed.

End PanelLaws.

(** ** The record of a complete sweep *)

Section SweepCalls.

Import AnalyticNScaling.
Local Open Scope R_scope.

(** The solver calls of a complete sweep, read off the loops of [main]:
    for each geometry letter of ['fcs'], each rate and each stencil of
    [[3, 5, 7]], one call per resolution, in this order. *)
Definition expected_calls (rates : Np.vector) (Ns : list Z) : list event :=
  flat_map
    (fun letter =>
       flat_map
         (fun rate =>
            flat_map
              (fun nstencil =>
                 map (fun N => Integrated N nstencil rate letter) Ns)
              [3; 5; 7]%Z)
         rates)
    ["f"; "c"; "s"]%char.

Lemma flat_map_flat_map (A B C : Type) (f : B -> list C) (h : A -> list B)
      (l : list A) :
  flat_map f (flat_map h l) = flat_map (fun a => flat_map f (h a)) l.
Proof.
  induction l as [| a l IH]; simpl; [reflexivity |].
  rewrite flat_map_app, IH. reflexivity.
Qed.

Lemma enumerate_values (A : Type) (l : list A) :
  map snd (Eff.enumerate l) = l.
Proof.
  unfold Eff.enumerate.
  assert (H : forall (idx : list Z), length idx = length l ->
                map snd (combine idx l) = l).
  { induction l as [| a l IH]; intros [| i idx] Hlen; simpl in *;
      try reflexivity; try discriminate.
    rewrite IH by lia. reflexivity. }
  apply H. rewrite length_map, length_seq. reflexivity.
Qed.

Lemma flat_map_enumerate (A B : Type) (f : A -> list B) (l : list A) :
  flat_map (fun q => f (snd q)) (Eff.enumerate l) = flat_map f l.
Proof.
  rewrite <- (enumerate_values l) at 2.
  induction (Eff.enumerate l) as [| q qs IH]; simpl; [reflexivity |].
  rewrite IH. reflexivity.
Qed.

Lemma in_enumerate_value (A : Type) (l : list A) (q : Z * A) :
  In q (Eff.enumerate l) -> In (snd q) l.
Proof.
  intros H. rewrite <- (enumerate_values l). apply in_map, H.
Qed.

(** The calls of the triples, in the order of the loops, are the calls
    written out above. *)
Lemma sweep_calls_spelled (rates : Np.vector) (Ns : list Z) :
  flat_map (triple_calls Ns) (sweep_order rates) = expected_calls rates Ns.
Proof.
  unfold sweep_order, expected_calls.
  rewrite flat_map_flat_map.
  change (Eff.enumerate geometries)
    with [(0%Z, FLAT); (1%Z, CYLINDRICAL); (2%Z, SPHERICAL)].
  cbn [flat_map]. repeat f_equal;
    rewrite flat_map_flat_map;
    match goal with
    | |- flat_map ?F (Eff.enumerate rates) = flat_map ?G rates =>
        rewrite <- (flat_map_enumerate G rates)
    end;
    apply flat_map_ext; intros r;
    cbn; unfold triple_calls, calls; cbn; rewrite !app_nil_r; reflexivity.
Qed.

End SweepCalls.

(** X10. Without [plot], a sweep over positive resolutions below 2^63,
    whose solver calls all return series of one length, runs to its end.  Its
    record is the solver calls in the order of the loops: for each of the
    geometry letters f, c, s, each rate and each stencil 3, 5, 7, one
    call per resolution in the order of the ladder, with
    [atol=1e-8, rtol=1e-10]: nine triples per rate.  (A resolution
    outside 64 bits makes [np.log(Ns)] raise after the first triple.) *)
Theorem complete_sweep_record
  (co : AnalyticNScaling.collaborators) (savefig : string) (nNs : Z)
  (Ns_arg : option string) (rates_arg nfit_arg : string)
  (nfit rates : Np.vector) (Ns : list Z) (n : Z) (L : nat)
  (log : list AnalyticNScaling.event) :
  Py.mapM (AnalyticNScaling.float co) (PyText.split "," nfit_arg) = inr nfit ->
  AnalyticNScaling.resolution_ladder nNs Ns_arg = inr (Ns, n) ->
  Py.mapM (AnalyticNScaling.float co) (PyText.split "," rates_arg) = inr rates ->
  Ns <> [] ->
  Forall (fun N => (0 < N < 2 ^ 63)%Z) Ns ->
  (forall letter rate nstencil N,
      In letter ["f"; "c"; "s"]%char -> In rate rates ->
      In nstencil [3; 5; 7]%Z -> In N Ns ->
      exists run,
        AnalyticNScaling.integrate_rd co N nstencil rate letter
          (/ 10 ^ 8)%R (/ 10 ^ 10)%R = inr run
        /\ length (AnalyticNScaling.rmsd_over_atol run) = L) ->
  AnalyticNScaling.main co false savefig nNs Ns_arg rates_arg nfit_arg log
  = (inr tt, log ++ expected_calls rates Ns)
  /\ length (expected_calls rates Ns)
     = (length Ns * (9 * length rates))%nat.
Proof.
  intros Hnfit Hladder Hrates HNs Hfits Hall.
  rewrite <- sweep_calls_spelled. split.
  - rewrite main_run with (nfit := nfit) (rates := rates) (Ns := Ns) (n := n)
      by first [assumption | reflexivity].
    unfold Eff.bind.
    rewrite for_each_returns with (f := triple_calls Ns).
    + reflexivity.
    + intros [[g r] s] Hin log'. unfold AnalyticNScaling.visit, triple_calls.
      cbn [fst snd].
      apply in_sweep_order in Hin as (Hg & Hr & Hs).
      apply in_enumerate_value in Hg, Hr, Hs.
      apply triple_completes_without_plot with (L := L);
        [exact HNs
        | eapply Forall_impl; [| exact Hfits]; intros M HM; cbv beta in HM; lia
        |].
      intros N HN. apply (Hall _ _ _ N); try assumption.
      destruct Hg as [<- | [<- | [<- | []]]]; simpl; auto.
  - rewrite flat_map_length with (k := length Ns).
    + rewrite sweep_order_length. reflexivity.
    + intros t. unfold triple_calls, calls. apply length_map.
Qed.

Lemma complete_sweep_record_witness :
  AnalyticNScaling.main (SweepReference.collaborators SweepReference.sound)
    false "None" 2 None "0" "7,5,4" []
  = (inr tt, [] ++ expected_calls [0%R] [8; 16]%Z)
  /\ length (expected_calls [0%R] [8; 16]%Z) = (2 * (9 * 1))%nat.
Proof.
  apply (@complete_sweep_record
           (SweepReference.collaborators SweepReference.sound)
           "None" 2%Z None "0" "7,5,4" [7; 5; 4]%R [0]%R [8; 16]%Z 2%Z 1%nat []).
  - exact reference_nfit.
  - reflexivity.
  - exact reference_rates.
  - discriminate.
  - repeat constructor; lia.
  - intros letter rate nstencil N _ _ _ _. eexists. split; reflexivity.
Defined.

(** X11. With at most two rates (the default has two), every panel of the
    sweep lies in the 3-by-2 grid of axes: its index [gi*2 + ri + 1] is
    between 1 and 6, and its marker and colour exist, being taken from
    the three-letter strings at the stencil's position. *)
Theorem panels_lie_in_the_grid
  (co : AnalyticNScaling.collaborators) (rates : Np.vector)
  (g : Z * AnalyticNScaling.geometry) (r : Z * R) (s : Z * Z)
  (nNs : Z) (Ns : list Z) (nfit : Np.vector)
  (runs : list (AnalyticNScaling.run (AnalyticNScaling.aux co)))
  (err : Np.vector) (pn : AnalyticNScaling.panel) :
  In (g, r, s) (AnalyticNScaling.sweep_order rates) ->
  (length rates <= 2)%nat ->
  AnalyticNScaling.analyse co true nNs Ns nfit
    (fst g) (snd g) (fst r) (snd r) (fst s) (snd s) runs
  = inr (err, Some pn) ->
  AnalyticNScaling.axes pn = (fst g * 2 + fst r + 1)%Z
  /\ (1 <= AnalyticNScaling.axes pn <= 6)%Z
  /\ exists mk cl,
       AnalyticNScaling.marker pn = Some mk
       /\ AnalyticNScaling.color pn = Some cl.
Proof.
  intros Hin Hrates Han.
  apply in_sweep_order in Hin as (Hg & Hr & Hs).
  destruct (analyse_panel co _ _ _ _ _ _ _ _ _ _ Han)
    as (Haxes & Hmk & Hcl & _).
  destruct g as [gi geom], r as [ri rate], s as [si nst]. cbn [fst snd] in *.
  apply in_enumerate_bound in Hg, Hr. cbn [length AnalyticNScaling.geometries] in Hg.
  split; [exact Haxes |]. split; [lia |].
  rewrite Hmk, Hcl.
  cbn in Hs. destruct Hs as [E | [E | [E | []]]]; injection E as <- <-;
    eexists; eexists; split; reflexivity.
Qed.


Lemma panels_lie_in_the_grid_witness :
  exists pn,
    AnalyticNScaling.axes pn = (0 * 2 + 0 + 1)%Z
    /\ (1 <= AnalyticNScaling.axes pn <= 6)%Z
    /\ exists mk cl,
         AnalyticNScaling.marker pn = Some mk
         /\ AnalyticNScaling.color pn = Some cl.
Proof.
  destruct reference_analysis_runs as (err & pn & Hrun). exists pn.
  refine (@panels_lie_in_the_grid
            (SweepReference.collaborators SweepReference.sound) [0%R]
            (0%Z, AnalyticNScaling.FLAT) (0%Z, 0%R) (0%Z, 3%Z)
            3%Z [8; 16; 32]%Z [2; 2; 2]%R _ err pn _ _ Hrun).
  - left. reflexivity.
  - simpl. lia.
Defined.


Section LadderOrder.

Lemma doubling_sorted (l : list Z) :
  forall b : Z,
    (0 < b)%Z -> doubling_from b l ->
    StronglySorted Z.lt l /\ Forall (fun N => (b <= N)%Z) l.
Proof.
  induction l as [| n l IH]; intros b Hb Hd.
  - split; constructor.
  - destruct Hd as [-> Hd].
    destruct (IH (2 * b)%Z ltac:(lia) Hd) as [Hs Hf].
    split.
    + constructor; [exact Hs |].
      eapply Forall_impl; [| exact Hf]. intros N HN. cbv beta in HN. lia.
    + constructor; [lia |].
      eapply Forall_impl; [| exact Hf]. intros N HN. cbv beta in HN. lia.
Qed.

End LadderOrder.

(** X13. The ladder built from [nNs] alone is strictly increasing and
    starts no lower than 8, so the error series of a sweep over it has
    strictly increasing resolutions. *)
Theorem default_ladder_increases (nNs n : Z) (Ns : list Z) :
  AnalyticNScaling.resolution_ladder nNs None = inr (Ns, n) ->
  n = nNs
  /\ length Ns = Z.to_nat nNs
  /\ StronglySorted Z.lt Ns
  /\ Forall (fun N => (8 <= N)%Z) Ns.
Proof.
  unfold AnalyticNScaling.resolution_ladder. intros H.
  injection H as <- <-.
  split; [reflexivity |].
  split; [unfold Py.range; rewrite !length_map, length_seq; reflexivity |].
  apply doubling_sorted; [lia |]. apply (powers_doubling 0).
Qed.

Lemma default_ladder_increases_witness :
  7%Z = 7%Z
  /\ length [8; 16; 32; 64; 128; 256; 512]%Z = Z.to_nat 7
  /\ StronglySorted Z.lt [8; 16; 32; 64; 128; 256; 512]%Z
  /\ Forall (fun N => (8 <= N)%Z) [8; 16; 32; 64; 128; 256; 512]%Z.
Proof.
  apply (@default_ladder_increases 7 7 [8; 16; 32; 64; 128; 256; 512]%Z).
  reflexivity.
Defined.

(** ** When [integrate_rd] returns *)

Section IntegrationReturns.

Import Chemreac IntegrateRd.
Local Open Scope R_scope.







End IntegrationReturns.


